(** * RESKinematicsGenerator: resonance kinematics selection

    A shallow embedding of [src/EVGModules/RESKinematicsGenerator.cxx]
    (GENIE neutrino generator) and the properties of its kinematic
    selection, phase-space bounds and maximum cross-section search.

    Conventions of the embedding.
    - A C++ [double] is a rational number ([Q]): arithmetic is exact,
      rounding, infinities and NaN are not modelled.  Comparisons are the
      boolean ones of the code ([Qle_bool], [Qlt_bool]).
    - [unsigned int iter] is a [Z] reduced modulo [2^32] at each increment.
    - [assert(c)] aborts the process when [c] is false (the build keeps
      assertions); the outcome [AssertFailed] records it.
    - Code the file calls but does not define (cross-section model,
      kinematic limits, transforms, random generators, the ROOT sampler,
      global constants) is gathered in the record [Externals].
    - The mutable objects ([GHepRecord], its [Interaction], the envelope
      [fEnvelope]) are threaded explicitly through the functions that
      mutate them. *)

From Stdlib Require Import QArith ZArith List String Bool Lia Lqa.
Import ListNotations.

Local Open Scope Q_scope.

(** ** Numbers *)

Definition Qlt_bool (a b : Q) : bool := negb (Qle_bool b a).

(** ROOT's [TMath::Min(a,b)] is [a <= b ? a : b], [TMath::Max(a,b)] is
    [a >= b ? a : b]. *)
Definition TMath_Min (a b : Q) : Q := if Qle_bool a b then a else b.
Definition TMath_Max (a b : Q) : Q := if Qle_bool b a then a else b.

(** ** Data model *)

(** [Range1D_t]: the pair [(min, max)] of a kinematic variable. *)
Record Range1D_t : Type := mkRange1D { min : Q; max : Q }.

Inductive KineVar_t : Type := kKVW | kKVQ2 | kKVx | kKVy.

Inductive KinePhaseSpace_t : Type := kPSWQ2fE | kPSWQD2fE.

(** Baryon resonance identifiers are an enumeration of
    [BaryonResonance/BaryonResonance.h]; only their identity matters. *)
Definition Resonance_t : Type := nat.

(** Modelled from the spec: the class [Kinematics] is declared outside
    this file.  It carries "mutable kinematic state (candidate values
    for W, Q2, derived x, y) plus locked final values once selection
    completes": each setter [SetV(v, selected)] writes the running value
    when [selected] is false (the default) and the locked value when it
    is true; [ClearRunningValues] forgets the running values only. *)
Record Kinematics : Type := mkKinematics {
  run_W  : option Q;  run_Q2 : option Q;
  run_x  : option Q;  run_y  : option Q;
  sel_W  : option Q;  sel_Q2 : option Q;
  sel_x  : option Q;  sel_y  : option Q
}.

Definition Kine_SetW (v : Q) (selected : bool) (k : Kinematics) : Kinematics :=
  if selected
  then mkKinematics (run_W k) (run_Q2 k) (run_x k) (run_y k)
                    (Some v) (sel_Q2 k) (sel_x k) (sel_y k)
  else mkKinematics (Some v) (run_Q2 k) (run_x k) (run_y k)
                    (sel_W k) (sel_Q2 k) (sel_x k) (sel_y k).

Definition Kine_SetQ2 (v : Q) (selected : bool) (k : Kinematics) : Kinematics :=
  if selected
  then mkKinematics (run_W k) (run_Q2 k) (run_x k) (run_y k)
                    (sel_W k) (Some v) (sel_x k) (sel_y k)
  else mkKinematics (run_W k) (Some v) (run_x k) (run_y k)
                    (sel_W k) (sel_Q2 k) (sel_x k) (sel_y k).

Definition Kine_Setx (v : Q) (selected : bool) (k : Kinematics) : Kinematics :=
  if selected
  then mkKinematics (run_W k) (run_Q2 k) (run_x k) (run_y k)
                    (sel_W k) (sel_Q2 k) (Some v) (sel_y k)
  else mkKinematics (run_W k) (run_Q2 k) (Some v) (run_y k)
                    (sel_W k) (sel_Q2 k) (sel_x k) (sel_y k).

Definition Kine_Sety (v : Q) (selected : bool) (k : Kinematics) : Kinematics :=
  if selected
  then mkKinematics (run_W k) (run_Q2 k) (run_x k) (run_y k)
                    (sel_W k) (sel_Q2 k) (sel_x k) (Some v)
  else mkKinematics (run_W k) (run_Q2 k) (run_x k) (Some v)
                    (sel_W k) (sel_Q2 k) (sel_x k) (sel_y k).

Definition ClearRunningValues (k : Kinematics) : Kinematics :=
  mkKinematics None None None None (sel_W k) (sel_Q2 k) (sel_x k) (sel_y k).

(** The locked (selected) part of the kinematics. *)
Definition locked (k : Kinematics) : option Q * option Q * option Q * option Q :=
  (sel_W k, sel_Q2 k, sel_x k, sel_y k).

(** [Interaction]: what this file reads of the initial state and of the
    exclusive tag, the kinematics it mutates, and the two "trust" bits
    it sets and resets. *)
Record Interaction : Type := mkInteraction {
  GetProbeE          : Q;                  (* GetInitialState().GetProbeE(kRfStruckNucAtRest) *)
  StruckNucleonM     : Q;                  (* GetTarget().StruckNucleonP4()->M() *)
  GetExclusiveTag    : option Resonance_t; (* None: !KnownResonance() *)
  GetKinematics      : Kinematics;
  kISkipProcessChk   : bool;
  kISkipKinematicChk : bool
}.

Definition with_kine (f : Kinematics -> Kinematics) (i : Interaction) : Interaction :=
  mkInteraction (GetProbeE i) (StruckNucleonM i) (GetExclusiveTag i)
                (f (GetKinematics i)) (kISkipProcessChk i) (kISkipKinematicChk i).

Definition SetW  (v : Q) (sel : bool) : Interaction -> Interaction := with_kine (Kine_SetW v sel).
Definition SetQ2 (v : Q) (sel : bool) : Interaction -> Interaction := with_kine (Kine_SetQ2 v sel).
Definition Setx  (v : Q) (sel : bool) : Interaction -> Interaction := with_kine (Kine_Setx v sel).
Definition Sety  (v : Q) (sel : bool) : Interaction -> Interaction := with_kine (Kine_Sety v sel).

Definition SetBit_SkipProcessChk (b : bool) (i : Interaction) : Interaction :=
  mkInteraction (GetProbeE i) (StruckNucleonM i) (GetExclusiveTag i)
                (GetKinematics i) b (kISkipKinematicChk i).

Definition SetBit_SkipKinematicChk (b : bool) (i : Interaction) : Interaction :=
  mkInteraction (GetProbeE i) (StruckNucleonM i) (GetExclusiveTag i)
                (GetKinematics i) (kISkipProcessChk i) b.

(** Event flags ([GHEP/GHepFlags.h]) and the event record. *)
Inductive GHepFlag_t : Type := kNoAvailablePhaseSpace | kNoValidKinematics.

Definition GHepFlag_eqb (a b : GHepFlag_t) : bool :=
  match a, b with
  | kNoAvailablePhaseSpace, kNoAvailablePhaseSpace => true
  | kNoValidKinematics, kNoValidKinematics => true
  | _, _ => false
  end.

(** The [TBits] of the record, as the list of the bits that are set. *)
Definition TBits : Type := list GHepFlag_t.

Definition SetBitNumber (f : GHepFlag_t) (v : bool) (bits : TBits) : TBits :=
  if v then f :: bits else filter (fun g => negb (GHepFlag_eqb f g)) bits.

Definition TestBitNumber (f : GHepFlag_t) (bits : TBits) : bool :=
  existsb (GHepFlag_eqb f) bits.

Record GHepRecord : Type := mkGHepRecord {
  GetInteraction : Interaction;
  EventFlags     : TBits;
  GetXSec        : Q;     (* total cross section of the event *)
  GetDiffXSec    : Q;
  GetWeight      : Q
}.

Definition SetInteraction (i : Interaction) (e : GHepRecord) : GHepRecord :=
  mkGHepRecord i (EventFlags e) (GetXSec e) (GetDiffXSec e) (GetWeight e).
Definition SetEventFlags (b : TBits) (e : GHepRecord) : GHepRecord :=
  mkGHepRecord (GetInteraction e) b (GetXSec e) (GetDiffXSec e) (GetWeight e).
Definition SetDiffXSec (x : Q) (e : GHepRecord) : GHepRecord :=
  mkGHepRecord (GetInteraction e) (EventFlags e) (GetXSec e) x (GetWeight e).
Definition SetWeight (w : Q) (e : GHepRecord) : GHepRecord :=
  mkGHepRecord (GetInteraction e) (EventFlags e) (GetXSec e) (GetDiffXSec e) w.

(** [genie::exceptions::EVGThreadException]; a fresh one has an empty
    reason and fast-forward switched off. *)
Record EVGThreadException : Type := mkException {
  ShowReason  : string;
  FastForward : bool
}.

Definition new_exception : EVGThreadException := mkException EmptyString false.
Definition SetReason (r : string) (x : EVGThreadException) : EVGThreadException :=
  mkException r (FastForward x).
Definition SwitchOnFastForward (x : EVGThreadException) : EVGThreadException :=
  mkException (ShowReason x) true.

(** ROOT's [TF2] as this file uses it: a range in [(x, y)] and four
    parameters.  The function it wraps is
    [kinematics::RESImportanceSamplingEnvelope]. *)
Record TF2 : Type := mkTF2 {
  tf_xmin : Q; tf_ymin : Q; tf_xmax : Q; tf_ymax : Q;
  par0 : Q; par1 : Q; par2 : Q; par3 : Q
}.

Definition SetRange (xmin ymin xmax ymax : Q) (f : TF2) : TF2 :=
  mkTF2 xmin ymin xmax ymax (par0 f) (par1 f) (par2 f) (par3 f).

Definition SetParameter (n : nat) (v : Q) (f : TF2) : TF2 :=
  match n with
  | 0%nat => mkTF2 (tf_xmin f) (tf_ymin f) (tf_xmax f) (tf_ymax f) v (par1 f) (par2 f) (par3 f)
  | 1%nat => mkTF2 (tf_xmin f) (tf_ymin f) (tf_xmax f) (tf_ymax f) (par0 f) v (par2 f) (par3 f)
  | 2%nat => mkTF2 (tf_xmin f) (tf_ymin f) (tf_xmax f) (tf_ymax f) (par0 f) (par1 f) v (par3 f)
  | 3%nat => mkTF2 (tf_xmin f) (tf_ymin f) (tf_xmax f) (tf_ymax f) (par0 f) (par1 f) (par2 f) v
  | _ => f
  end.

(** ** Configuration *)

(** The private data members of the generator. *)
Record RESKinematicsGenerator : Type := mkGenerator {
  fWmin  : Q;  fWmax  : Q;
  fQ2min : Q;  fQ2max : Q;
  fSafetyFactor : Q;
  fEMin : Q;
  fWcut : Q;
  fMaxXSecDiffTolerance : Q;
  fGenerateUniformly : bool;
  fEnvelope : TF2
}.

(** The configuration [Registry]: named doubles and named booleans. *)
Record Registry : Type := mkRegistry {
  reg_doubles : list (string * Q);
  reg_bools   : list (string * bool)
}.

Fixpoint lookup {A : Type} (key : string) (l : list (string * A)) : option A :=
  match l with
  | [] => None
  | (k, v) :: l' => if String.eqb key k then Some v else lookup key l'
  end.

Definition GetDoubleDef (r : Registry) (key : string) (def : Q) : Q :=
  match lookup key (reg_doubles r) with Some v => v | None => def end.

Definition GetBoolDef (r : Registry) (key : string) (def : bool) : bool :=
  match lookup key (reg_bools r) with Some v => v | None => def end.

(** [LoadConfigData]; [gc_Wcut] is [gc->GetDouble("Wcut")] of the global
    parameter list.  [None]: the assertion on the tolerance failed. *)
Definition LoadConfigData (fConfig : Registry) (gc_Wcut : Q)
  : option RESKinematicsGenerator :=
  let Wmin  := GetDoubleDef fConfig "W-min" (-999999) in
  let Wmax  := GetDoubleDef fConfig "W-max" 999999 in
  let Q2min := GetDoubleDef fConfig "Q2-min" (-999999) in
  let Q2max := GetDoubleDef fConfig "Q2-max" 999999 in
  let SafetyFactor := GetDoubleDef fConfig "max-xsec-safety-factor" 1.25 in
  let EMin := GetDoubleDef fConfig "min-energy-cached" 1.0 in
  let Wcut := GetDoubleDef fConfig "Wcut" gc_Wcut in
  let MaxXSecDiffTolerance := GetDoubleDef fConfig "max-xsec-diff-tolerance" 0 in
  if Qle_bool 0 MaxXSecDiffTolerance then
    let GenerateUniformly := GetBoolDef fConfig "uniform-over-phase-space" false in
    Some (mkGenerator Wmin Wmax Q2min Q2max SafetyFactor EMin Wcut
            MaxXSecDiffTolerance GenerateUniformly
            (mkTF2 0.1 0.1 1 1 0 0 0 0))
  else None.

(** ** Code that lives outside this file *)

(** The services [RESKinematicsGenerator.cxx] calls and the constants
    it reads.  [RndState] is the joint state of the random number
    generators ([RandomGen::RndKine()] and ROOT's generator behind
    [TF2::GetRandom2]). *)
Record Externals (RndState : Type) : Type := mkExternals {
  KineRange        : Interaction -> KineVar_t -> Range1D_t;
  XSec             : Interaction -> KinePhaseSpace_t -> Q;
  Jacobian         : Interaction -> KinePhaseSpace_t -> KinePhaseSpace_t -> Q;
  PhaseSpaceVolume : Interaction -> KinePhaseSpace_t -> Q;
  Q2toQD2          : Q -> Q;
  QD2toQ2          : Q -> Q;
  WQ2toXY          : Q -> Q -> Q -> Q -> Q * Q;      (* E, M, W, Q2 |-> (x, y) *)
  res_Mass         : Resonance_t -> Q;
  RESImportanceSamplingEnvelope : Q -> Q -> TF2 -> Q; (* x, y, parameters *)
  Rndm             : RndState -> Q * RndState;
  GetRandom2       : TF2 -> RndState -> (Q * Q) * RndState;
  TMath_Exp        : Q -> Q;
  TMath_Log        : Q -> Q;
  kASmallNum       : Q;
  kMinQ2Limit      : Q;
  kRjMaxIterations : Z;
  FindMaxXSec      : Interaction -> option Q         (* the cache of maxima *)
}.

Arguments KineRange {RndState} _ _ _.
Arguments XSec {RndState} _ _ _.
Arguments Jacobian {RndState} _ _ _ _.
Arguments PhaseSpaceVolume {RndState} _ _ _.
Arguments Q2toQD2 {RndState} _ _.
Arguments QD2toQ2 {RndState} _ _.
Arguments WQ2toXY {RndState} _ _ _ _ _.
Arguments res_Mass {RndState} _ _.
Arguments RESImportanceSamplingEnvelope {RndState} _ _ _ _.
Arguments Rndm {RndState} _ _.
Arguments GetRandom2 {RndState} _ _ _.
Arguments TMath_Exp {RndState} _ _.
Arguments TMath_Log {RndState} _ _.
Arguments kASmallNum {RndState} _.
Arguments kMinQ2Limit {RndState} _.
Arguments kRjMaxIterations {RndState} _.
Arguments FindMaxXSec {RndState} _ _.

(** Modelled from the spec: [kinematics::ApplyCutsToKineLimits]
    (Utils/KineUtils) is not in this file.  "Applies user-configured
    [min, max] cuts by intersecting with the physical range; a cut
    outside the physical range is clamped to the physical boundary
    (cuts narrow, never extend)": each cut is clamped into the range. *)
Definition clamp (v lo hi : Q) : Q := TMath_Min (TMath_Max v lo) hi.

Definition ApplyCutsToKineLimits (range : Range1D_t) (min_cut max_cut : Q)
  : Range1D_t :=
  mkRange1D (clamp min_cut (min range) (max range))
            (clamp max_cut (min range) (max range)).

(** Modelled from the spec: [utils::math::IsWithinLimits] is not in this
    file; "the resonance mass if it lies inside the allowed range". *)
Definition IsWithinLimits (x : Q) (range : Range1D_t) : bool :=
  Qle_bool (min range) x && Qle_bool x (max range).

(** Modelled from the spec: [KineGeneratorWithCache::AssertXSecLimits]
    is not in this file.  "Assert the true cross section does not exceed
    the envelope's effective ceiling by more than a configured
    fractional tolerance"; a violation is "a hard stop (process-fatal in
    the reference behavior)".  [true]: the check passes. *)
Definition AssertXSecLimits (g : RESKinematicsGenerator) (xsec xsec_max : Q) : bool :=
  negb (Qlt_bool xsec_max xsec
        && Qlt_bool (fMaxXSecDiffTolerance g * xsec_max) (xsec - xsec_max)).

(** The empty-range test the code applies to a range. *)
Definition no_phase_space (r : Range1D_t) : bool :=
  Qle_bool (max r) 0 || Qle_bool (max r) (min r).

(** ** The generator's methods *)

Section Generator.

Context {RndState : Type}.
Variable ext : Externals RndState.
Variable g : RESKinematicsGenerator.

Definition Eval (f : TF2) (x y : Q) : Q := RESImportanceSamplingEnvelope ext x y f.

(** [RESKinematicsGenerator::WRange] *)
Definition WRange (interaction : Interaction) : Range1D_t :=
  let W := KineRange ext interaction kKVW in
  let W := ApplyCutsToKineLimits W (fWmin g) (fWmax g) in
  mkRange1D (min W) (TMath_Min (fWcut g) (max W)).

(** [RESKinematicsGenerator::Q2Range] *)
Definition Q2Range (interaction : Interaction) : Range1D_t :=
  let Q2 := KineRange ext interaction kKVQ2 in
  ApplyCutsToKineLimits Q2 (fQ2min g) (fQ2max g).

(** *** ComputeMaxXSec *)

Definition NQ2 : nat := 15.
Definition kNQ2b : nat := 3.

(** The state of the Q2 scan: the interaction whose running Q2 is being
    set, the running maximum, and the debug log
    ["xsec(W= .., Q2= ..) = .."], one entry per evaluation. *)
Record ScanState : Type := mkScan {
  scan_interaction : Interaction;
  max_xsec : Q;
  scan_log : list (Q * Q)       (* (Q2, xsec), oldest first *)
}.

Definition sample (Q2 : Q) (s : ScanState) : Q * ScanState :=
  let i := SetQ2 Q2 false (scan_interaction s) in
  let xsec := XSec ext i kPSWQ2fE in
  (xsec, mkScan i (TMath_Max xsec (max_xsec s)) (scan_log s ++ [(Q2, xsec)])).

(** The inner loop [for(iq2b = 0; iq2b < kNQ2b; iq2b++)]; [n] is the
    number of steps left. *)
Fixpoint backward_steps (n : nat) (Q2 dlogQ2 rQ2min : Q) (s : ScanState)
  : ScanState :=
  match n with
  | O => s
  | S n' =>
      let Q2 := TMath_Exp ext (TMath_Log ext Q2 - dlogQ2) in
      if Qlt_bool Q2 rQ2min then backward_steps n' Q2 dlogQ2 rQ2min s
      else backward_steps n' Q2 dlogQ2 rQ2min (snd (sample Q2 s))
  end.

(** The loop [for(iq2 = 0; iq2 < NQ2; iq2++)]; [n] is [NQ2 - iq2]. *)
Fixpoint Q2_scan (n : nat) (iq2 : Z) (logQ2min dlogQ2 rQ2min xseclast : Q)
    (s : ScanState) : ScanState :=
  match n with
  | O => s
  | S n' =>
      let Q2 := TMath_Exp ext (logQ2min + inject_Z iq2 * dlogQ2) in
      let (xsec, s) := sample Q2 s in
      let increasing := Qle_bool 0 (xsec - xseclast) in
      if negb increasing then
        backward_steps kNQ2b Q2 (dlogQ2 / inject_Z (Z.of_nat kNQ2b)) rQ2min s
      else Q2_scan n' (iq2 + 1) logQ2min dlogQ2 rQ2min xsec s
  end.

(** The W at which the scan is made. *)
Definition scan_W (interaction : Interaction) : Q :=
  let md := match GetExclusiveTag interaction with
            | None => 1.23
            | Some res => res_Mass ext res
            end in
  let rW := WRange interaction in
  if IsWithinLimits md rW then md
  else if Qle_bool (max rW) md then max rW - kASmallNum ext
       else min rW + kASmallNum ext.

(** The factor applied to the maximum found on the grid. *)
Definition safety_factor (E : Q) : Q :=
  if Qlt_bool E 0.8 then 2 else fSafetyFactor g.

(** The early exit [if(rQ2.max < kMinQ2Limit || rQ2.min <= 0) return 0.] *)
Definition Q2_degenerate (rQ2 : Range1D_t) : bool :=
  Qlt_bool (max rQ2) (kMinQ2Limit ext) || Qle_bool (min rQ2) 0.

Definition logQ2min (rQ2 : Range1D_t) : Q := TMath_Log ext (min rQ2 + kASmallNum ext).
Definition logQ2max (rQ2 : Range1D_t) : Q := TMath_Log ext (max rQ2 - kASmallNum ext).
Definition dlogQ2 (rQ2 : Range1D_t) : Q :=
  (logQ2max rQ2 - logQ2min rQ2) / inject_Z (Z.of_nat NQ2 - 1).

(** The scan over Q2 at fixed W, from [max_xsec = 0] and
    [xseclast = -1]. *)
Definition scan_grid (interaction : Interaction) (rQ2 : Range1D_t) : ScanState :=
  Q2_scan NQ2 0 (logQ2min rQ2) (dlogQ2 rQ2) (min rQ2) (-1)
          (mkScan interaction 0 []).

(** [RESKinematicsGenerator::ComputeMaxXSec]: the value returned and the
    interaction as the scan leaves it. *)
Definition ComputeMaxXSec (interaction : Interaction) : Q * Interaction :=
  let E := GetProbeE interaction in
  let interaction := SetW (scan_W interaction) false interaction in
  let rQ2 := Q2Range interaction in
  if Q2_degenerate rQ2 then (0, interaction)
  else
    let s := scan_grid interaction rQ2 in
    (max_xsec s * safety_factor E, scan_interaction s).

End Generator.

(** ** Kinematic selection *)

Section Selection.

Context {RndState : Type}.
Variable ext : Externals RndState.
Variable g : RESKinematicsGenerator.

Inductive MaxXSecResult : Type :=
| MaxXSecValue (v : Q) (evrec : GHepRecord)
| MaxXSecThrown (x : EVGThreadException) (evrec : GHepRecord).

(** Modelled from the spec: [KineGeneratorWithCache::MaxXSec] is not in
    this file.  "Energies below a configured minimum bypass the cache
    entirely (always recomputed)"; otherwise the cached maximum is used
    and the search is "invoked on cache miss".  The caller's comment
    adds: "Throw an exception and quit the evg thread if a non-positive
    value is found".  The cache itself is not part of the event record
    and is not threaded here. *)
Definition MaxXSec (evrec : GHepRecord) : MaxXSecResult :=
  let interaction := GetInteraction evrec in
  let (v, interaction) :=
    if Qlt_bool (GetProbeE interaction) (fEMin g)
    then ComputeMaxXSec ext g interaction
    else match FindMaxXSec ext interaction with
         | Some v => (v, interaction)
         | None => ComputeMaxXSec ext g interaction
         end in
  if Qlt_bool 0 v then MaxXSecValue v (SetInteraction interaction evrec)
  else MaxXSecThrown
         (SwitchOnFastForward (SetReason "Non-positive max xsec" new_exception))
         (SetInteraction interaction evrec).

(** What the loop of [ProcessEventRecord] mutates: its counter, the
    event record (and the interaction in it), the envelope, and the
    random number generators. *)
Record LoopState : Type := mkLoop {
  iter     : Z;
  evrec    : GHepRecord;
  envelope : TF2;
  rnd      : RndState
}.

Definition set_iter (n : Z) (st : LoopState) : LoopState :=
  mkLoop n (evrec st) (envelope st) (rnd st).
Definition set_evrec (e : GHepRecord) (st : LoopState) : LoopState :=
  mkLoop (iter st) e (envelope st) (rnd st).
Definition set_interaction (i : Interaction) (st : LoopState) : LoopState :=
  set_evrec (SetInteraction i (evrec st)) st.
Definition set_envelope (f : TF2) (st : LoopState) : LoopState :=
  mkLoop (iter st) (evrec st) f (rnd st).
Definition set_rnd (r : RndState) (st : LoopState) : LoopState :=
  mkLoop (iter st) (evrec st) (envelope st) r.

(** How a call of [ProcessEventRecord] ends. *)
Inductive Outcome : Type :=
| Returned (st : LoopState)                          (* kinematics selected *)
| Thrown (x : EVGThreadException) (st : LoopState)   (* [throw exception] *)
| AssertFailed (st : LoopState)                      (* [assert] aborted *)
| XSecLimitsExceeded (st : LoopState).               (* [AssertXSecLimits] stopped *)

Inductive Draw : Type :=
| Skipped (st : LoopState)                           (* [continue] *)
| Candidate (gW gQ2 gQD2 : Q) (st : LoopState).

Inductive Step : Type :=
| Continue (st : LoopState)
| Done (o : Outcome).

(** The branch [if(fGenerateUniformly)] of the loop body. *)
Definition generate_uniform (Wmin dW : Q) (st : LoopState) : Draw :=
  let (u, r) := Rndm ext (rnd st) in
  let gW := Wmin + dW * u in
  let interaction := GetInteraction (evrec st) in
  let Q2 := Q2Range ext g interaction in
  if no_phase_space Q2 then Skipped (set_rnd r st)
  else
    let (u', r') := Rndm ext r in
    let gQ2 := min Q2 + (max Q2 - min Q2) * u' in
    Candidate gW gQ2 0
      (set_rnd r' (set_interaction (SetBit_SkipKinematicChk true interaction) st)).

(** The block [if(iter==1)] of the importance-sampling branch. *)
Definition init_envelope (Wmin Wmax xsec_max : Q) (st : LoopState) : LoopState :=
  let interaction := SetW Wmin false (GetInteraction (evrec st)) in
  let Q2 := Q2Range ext g interaction in
  let Q2min := 0 + kASmallNum ext in
  let Q2max := max Q2 - kASmallNum ext in
  let QD2min := Q2toQD2 ext Q2max in
  let QD2max := Q2toQD2 ext Q2min in
  let (mR, gR) := match GetExclusiveTag interaction with
                  | None => (1.2, 0.6)
                  | Some res => (res_Mass ext res, 0.220)
                  end in
  let f := SetRange QD2min Wmin QD2max Wmax (envelope st) in
  let f := SetParameter 0 mR f in
  let f := SetParameter 1 gR f in
  let f := SetParameter 2 xsec_max f in
  let f := SetParameter 3 Wmax f in
  set_envelope f (set_interaction interaction st).

(** The importance-sampling branch of the loop body. *)
Definition generate_importance (Wmin Wmax xsec_max : Q) (st : LoopState) : Draw :=
  let st := if (iter st =? 1)%Z then init_envelope Wmin Wmax xsec_max st else st in
  let '((gQD2, gW), r) := GetRandom2 ext (envelope st) (rnd st) in
  let gQ2 := QD2toQ2 ext gQD2 in
  Candidate gW gQ2 gQD2 (set_rnd r st).

(** The block [if(accept)]: the module's job is finished. *)
Definition accept_kinematics (gW gQ2 xsec : Q) (st : LoopState) : LoopState :=
  let interaction := GetInteraction (evrec st) in
  let interaction := SetBit_SkipProcessChk false interaction in
  let interaction := SetBit_SkipKinematicChk false interaction in
  let E := GetProbeE interaction in
  let M := StruckNucleonM interaction in
  let (gx, gy) := WQ2toXY ext E M gW gQ2 in
  let ev := SetDiffXSec xsec (SetInteraction interaction (evrec st)) in
  let ev :=
    if fGenerateUniformly g then
      let vol := PhaseSpaceVolume ext interaction kPSWQ2fE in
      let totxsec := GetXSec ev in
      let wght := (vol / totxsec) * xsec in
      let wght := wght * GetWeight ev in
      SetWeight wght ev
    else ev in
  let interaction := SetQ2 gQ2 true interaction in
  let interaction := SetW gW true interaction in
  let interaction := Setx gx true interaction in
  let interaction := Sety gy true interaction in
  let interaction := with_kine ClearRunningValues interaction in
  set_evrec (SetInteraction interaction ev) st.

(** From "Set kinematics for current trial" to the end of the loop
    body. *)
Definition try_kinematics (gW gQ2 gQD2 : Q) (st : LoopState) : Step :=
  let interaction := SetW gW false (GetInteraction (evrec st)) in
  let interaction := SetQ2 gQ2 false interaction in
  let st := set_interaction interaction st in
  let xsec := XSec ext interaction kPSWQ2fE in
  if negb (fGenerateUniformly g) then
    let max := Eval ext (envelope st) gQD2 gW in
    let (u, r) := Rndm ext (rnd st) in
    let t := max * u in
    let J := Jacobian ext interaction kPSWQ2fE kPSWQD2fE in
    let st := set_rnd r st in
    if AssertXSecLimits g xsec max then
      if Qlt_bool t (J * xsec)
      then Done (Returned (accept_kinematics gW gQ2 xsec st))
      else Continue st
    else Done (XSecLimitsExceeded st)
  else
    if Qlt_bool 0 xsec
    then Done (Returned (accept_kinematics gW gQ2 xsec st))
    else Continue st.

Definition exhausted_exception : EVGThreadException :=
  SwitchOnFastForward (SetReason "Couldn't select kinematics" new_exception).

Definition no_phase_space_exception : EVGThreadException :=
  SwitchOnFastForward (SetReason "No available phase space" new_exception).

Definition raise_flag (f : GHepFlag_t) (st : LoopState) : LoopState :=
  set_evrec (SetEventFlags (SetBitNumber f true (EventFlags (evrec st))) (evrec st)) st.

(** The counter after [iter++]. *)
Definition next_iter (st : LoopState) : Z :=
  ((iter st + 1) mod 2 ^ 32)%Z.

(** One pass through the body of [while(1)]. *)
Definition iteration (Wmin Wmax dW xsec_max : Q) (st : LoopState) : Step :=
  let st := set_iter ((iter st + 1) mod 2 ^ 32)%Z st in
  if (kRjMaxIterations ext <? iter st)%Z then
    Done (Thrown exhausted_exception (raise_flag kNoValidKinematics st))
  else
    match (if fGenerateUniformly g
           then generate_uniform Wmin dW st
           else generate_importance Wmin Wmax xsec_max st) with
    | Skipped st => Continue st
    | Candidate gW gQ2 gQD2 st => try_kinematics gW gQ2 gQD2 st
    end.

(** [while(1)], entered at most [fuel] times; [None]: the fuel ran out
    before the loop was left. *)
Fixpoint rejection_loop (fuel : nat) (Wmin Wmax dW xsec_max : Q) (st : LoopState)
  : option Outcome :=
  match fuel with
  | O => None
  | S fuel' =>
      match iteration Wmin Wmax dW xsec_max st with
      | Continue st' => rejection_loop fuel' Wmin Wmax dW xsec_max st'
      | Done o => Some o
      end
  end.

(** The assertion on the W range. *)
Definition W_assertion (W : Range1D_t) : bool :=
  Qle_bool 0 (min W) && Qlt_bool (min W) (max W).

(** [RESKinematicsGenerator::ProcessEventRecord]. *)
Definition ProcessEventRecord (fuel : nat) (event : GHepRecord) (r : RndState)
  : option Outcome :=
  let interaction := SetBit_SkipProcessChk true (GetInteraction event) in
  let event := SetInteraction interaction event in
  let st := mkLoop 0 event (fEnvelope g) r in
  let W := WRange ext g interaction in
  if negb (W_assertion W) then Some (AssertFailed st)
  else if no_phase_space W then
    Some (Thrown no_phase_space_exception (raise_flag kNoAvailablePhaseSpace st))
  else
    match (if fGenerateUniformly g then MaxXSecValue (-1) event
           else MaxXSec event) with
    | MaxXSecThrown x event => Some (Thrown x (set_evrec event st))
    | MaxXSecValue xsec_max event =>
        let Wmin := min W + kASmallNum ext in
        let Wmax := max W - kASmallNum ext in
        let dW := Wmax - Wmin in
        rejection_loop fuel Wmin Wmax dW xsec_max (set_evrec event st)
    end.

End Selection.

(** ** Reading the Q2 scan

    The vocabulary in which the scan of [ComputeMaxXSec] is described:
    the points of the coarse grid, the cross section sampled there (at
    the fixed W of [interaction]), and the points of the refined
    sub-scan. *)

Section ScanReading.

Context {RndState : Type}.
Variable ext : Externals RndState.
Variable interaction : Interaction.
Variable rQ2 : Range1D_t.

(** The Q2 of step [iq2 = k] of the coarse grid. *)
Definition grid_Q2 (k : nat) : Q :=
  TMath_Exp ext (logQ2min ext rQ2 + inject_Z (Z.of_nat k) * dlogQ2 ext rQ2).

(** The cross section at a given Q2. *)
Definition xsec_at (Q2 : Q) : Q := XSec ext (SetQ2 Q2 false interaction) kPSWQ2fE.

Definition grid_xsec (k : nat) : Q := xsec_at (grid_Q2 k).

(** [xseclast] as step [k] finds it. *)
Definition xsec_before (k : nat) : Q :=
  match k with
  | O => -1
  | S k' => grid_xsec k'
  end.

Definition log_entry (Q2 : Q) : Q * Q := (Q2, xsec_at Q2).

(** The log of the coarse steps [0 .. k]. *)
Definition coarse_log (k : nat) : list (Q * Q) :=
  map (fun j => log_entry (grid_Q2 j)) (seq 0 (S k)).

(** The [n] points reached by stepping back from [Q2] by [d] in
    [log Q2]. *)
Fixpoint back_points (n : nat) (Q2 d : Q) : list Q :=
  match n with
  | O => []
  | S n' =>
      let Q2 := TMath_Exp ext (TMath_Log ext Q2 - d) in
      Q2 :: back_points n' Q2 d
  end.

(** The log of the refined sub-scan: the back points that are not below
    the lower end of the Q2 range. *)
Definition refined_log (Q2 d : Q) : list (Q * Q) :=
  map log_entry
      (filter (fun q => negb (Qlt_bool q (min rQ2))) (back_points kNQ2b Q2 d)).

(** The maximum of [0] and the cross sections of a log. *)
Definition running_max (log : list (Q * Q)) : Q :=
  fold_left (fun m e => TMath_Max (snd e) m) log 0.

(** The scanned interaction differs from [interaction] in its running
    Q2 only. *)
Definition based (s : ScanState) : Prop :=
  forall q, SetQ2 q false (scan_interaction s) = SetQ2 q false interaction.

(** The running maximum is the maximum of what has been logged. *)
Definition tracked (s : ScanState) : Prop :=
  max_xsec s = running_max (scan_log s).

(** [xseclast] at step [j0 + j] of a scan entered at step [j0] with
    [xseclast = xl]. *)
Definition before (xl : Q) (j0 j : nat) : Q :=
  match j with
  | O => xl
  | S j' => grid_xsec (j0 + j')
  end.

(** The coarse scan entered at step [j0] with [n] steps left. *)
Definition scan_from (n j0 : nat) (xl : Q) (s : ScanState) : ScanState :=
  Q2_scan ext n (Z.of_nat j0) (logQ2min ext rQ2) (dlogQ2 ext rQ2) (min rQ2) xl s.

End ScanReading.

(** ** Reading the state of the selection *)

(** What the selection may change in the interaction before it commits:
    the running W and Q2 (which it sets, never clears) and the two
    trust bits.  [frame i0 i]: [i] agrees with [i0] on everything
    else. *)
Definition frame (i0 i : Interaction) : Prop :=
  GetProbeE i = GetProbeE i0
  /\ StruckNucleonM i = StruckNucleonM i0
  /\ GetExclusiveTag i = GetExclusiveTag i0
  /\ locked (GetKinematics i) = locked (GetKinematics i0)
  /\ run_x (GetKinematics i) = run_x (GetKinematics i0)
  /\ run_y (GetKinematics i) = run_y (GetKinematics i0)
  /\ (run_W (GetKinematics i0) <> None -> run_W (GetKinematics i) <> None)
  /\ (run_Q2 (GetKinematics i0) <> None -> run_Q2 (GetKinematics i) <> None).

(** The scalars of the event record the selection writes on acceptance
    only. *)
Definition same_scalars (e0 e : GHepRecord) : Prop :=
  GetXSec e = GetXSec e0 /\ GetDiffXSec e = GetDiffXSec e0
  /\ GetWeight e = GetWeight e0.

(** Committed kinematics: the four values locked, no running value
    left. *)
Definition committed (k : Kinematics) : Prop :=
  sel_W k <> None /\ sel_Q2 k <> None /\ sel_x k <> None /\ sel_y k <> None
  /\ run_W k = None /\ run_Q2 k = None /\ run_x k = None /\ run_y k = None.

(** What an outcome leaves in the interaction [i0] the call was given:
    committed kinematics on return, the frame of [i0] otherwise. *)
Definition outcome_frame {RndState : Type} (i0 : Interaction)
    (o : Outcome (RndState := RndState)) : Prop :=
  match o with
  | Returned st => committed (GetKinematics (GetInteraction (evrec st)))
  | Thrown _ st | AssertFailed st | XSecLimitsExceeded st =>
      frame i0 (GetInteraction (evrec st))
  end.

(** The interaction of the event [event] while the cross section of the
    trial [(gW, gQ2)] is computed in uniform mode, and at the point
    where the weight of the accepted trial is computed. *)
Definition trial_point (i0 : Interaction) (gW gQ2 : Q) : Interaction :=
  SetQ2 gQ2 false
    (SetW gW false (SetBit_SkipKinematicChk true (SetBit_SkipProcessChk true i0))).

Definition acceptance_point (i0 : Interaction) (gW gQ2 : Q) : Interaction :=
  SetBit_SkipKinematicChk false
    (SetBit_SkipProcessChk false (trial_point i0 gW gQ2)).

(** Uniform mode: what holds of the loop state at each entry of the
    loop body of a selection started on [event]. *)
Definition uniform_inv {RndState : Type} (event : GHepRecord)
    (st : LoopState (RndState := RndState)) : Prop :=
  frame (GetInteraction event) (GetInteraction (evrec st))
  /\ kISkipProcessChk (GetInteraction (evrec st)) = true
  /\ same_scalars event (evrec st).

(** Uniform mode: what holds of the state the selection returns. *)
Definition uniform_result {RndState : Type} (ext : Externals RndState)
    (event : GHepRecord) (st : LoopState (RndState := RndState)) : Prop :=
  exists gW gQ2,
    sel_W (GetKinematics (GetInteraction (evrec st))) = Some gW
    /\ sel_Q2 (GetKinematics (GetInteraction (evrec st))) = Some gQ2
    /\ GetDiffXSec (evrec st)
       = XSec ext (trial_point (GetInteraction event) gW gQ2) kPSWQ2fE
    /\ GetWeight (evrec st)
       = PhaseSpaceVolume ext (acceptance_point (GetInteraction event) gW gQ2) kPSWQ2fE
         / GetXSec event
         * GetDiffXSec (evrec st) * GetWeight event.

(** The loop state an outcome carries. *)
Definition state_of {RndState : Type} (o : Outcome (RndState := RndState))
  : LoopState :=
  match o with
  | Returned st | Thrown _ st | AssertFailed st | XSecLimitsExceeded st => st
  end.

(** ** A small concrete world

    Instances of the external services on which the definitions above
    can be run.  The random generators read a list of prepared uniform
    values; the sampler of the envelope maps two of them into the range
    of the envelope; the envelope is flat at its ceiling [par2]; Q2 is
    transformed to [1 / (1 + Q2)] and back; [TMath_Exp] and [TMath_Log]
    are replaced by rational stand-ins (the identity), so that the scan
    runs on a linear grid. *)
Module Toy.

Definition RndState : Type := list Q.

Definition Rndm (r : RndState) : Q * RndState :=
  match r with
  | [] => (0, [])
  | u :: r' => (u, r')
  end.

Definition GetRandom2 (f : TF2) (r : RndState) : (Q * Q) * RndState :=
  let (a, r) := Rndm r in
  let (b, r) := Rndm r in
  ((tf_xmin f + (tf_xmax f - tf_xmin f) * a,
    tf_ymin f + (tf_ymax f - tf_ymin f) * b), r).

Definition WQ2toXY (E M W Q2 : Q) : Q * Q :=
  let nu := (W * W - M * M + Q2) / (2 * M) in
  (Q2 / (2 * M * nu), nu / E).

Definition world (Wphys : Range1D_t) (Q2phys : Interaction -> Range1D_t)
    (xsec : Interaction -> Q) (N : Z) (cached : option Q) : Externals RndState :=
  mkExternals RndState
    (fun i v => match v with kKVW => Wphys | _ => Q2phys i end)
    (fun i _ => xsec i)
    (fun _ _ _ => 1)
    (fun _ _ => 2)
    (fun q => 1 / (1 + q))
    (fun d => 1 / d - 1)
    WQ2toXY
    (fun _ => 1.232)
    (fun _ _ f => par2 f)
    Rndm
    GetRandom2
    (fun x => x)
    (fun x => x)
    0.000001
    0.01
    N
    (fun _ => cached).

Definition no_kinematics : Kinematics :=
  mkKinematics None None None None None None None None.

(** A probe of 3 GeV on a nucleon at rest, no resonance tagged. *)
Definition interaction0 : Interaction :=
  mkInteraction 3 0.938 None no_kinematics false false.

Definition event0 : GHepRecord := mkGHepRecord interaction0 [] 10 0 1.

Definition config (doubles : list (string * Q)) (uniform : bool) : Registry :=
  mkRegistry doubles [("uniform-over-phase-space"%string, uniform)].

Definition generator (doubles : list (string * Q)) (uniform : bool)
  : RESKinematicsGenerator :=
  match LoadConfigData (config doubles uniform) 1.7 with
  | Some g => g
  | None => mkGenerator 0 0 0 0 0 0 0 0 false (mkTF2 0 0 0 0 0 0 0 0)
  end.

(** A cross section with a single peak in Q2, at Q2 = 3.3. *)
Definition peak (i : Interaction) : Q :=
  match run_Q2 (GetKinematics i) with
  | Some q => 10 - (q - 3.3) * (q - 3.3)
  | None => 0
  end.

(** A physical Q2 range that shrinks as the running W grows. *)
Definition Q2_for_W (i : Interaction) : Range1D_t :=
  match run_W (GetKinematics i) with
  | Some w => mkRange1D 0.1 (3 - w)
  | None => mkRange1D 0 0
  end.

(** An interaction that reaches the selection with a running W of 1,
    left by an earlier computation. *)
Definition interaction1 : Interaction :=
  mkInteraction 3 0.938 None
    (mkKinematics (Some 1) None None None None None None None) false false.

Definition event1 : GHepRecord := mkGHepRecord interaction1 [] 10 0 1.

(** A second random source, whose state counts the draws: draw number
    [n] returns [1 / (n + 2)], a value of [(0, 1)]. *)
Definition counting_Rndm (n : nat) : Q * nat :=
  (1 # Pos.of_succ_nat (S n), S n).

Definition counting_GetRandom2 (f : TF2) (n : nat) : (Q * Q) * nat :=
  let (a, n) := counting_Rndm n in
  let (b, n) := counting_Rndm n in
  ((tf_xmin f + (tf_xmax f - tf_xmin f) * a,
    tf_ymin f + (tf_ymax f - tf_ymin f) * b), n).

Definition counting_world (Wphys : Range1D_t) (Q2phys : Interaction -> Range1D_t)
    (xsec : Interaction -> Q) (N : Z) (cached : option Q) : Externals nat :=
  mkExternals nat
    (fun i v => match v with kKVW => Wphys | _ => Q2phys i end)
    (fun i _ => xsec i)
    (fun _ _ _ => 1)
    (fun _ _ => 2)
    (fun q => 1 / (1 + q))
    (fun d => 1 / d - 1)
    WQ2toXY
    (fun _ => 1.232)
    (fun _ _ f => par2 f)
    counting_Rndm
    counting_GetRandom2
    (fun x => x)
    (fun x => x)
    0.000001
    0.01
    N
    (fun _ => cached).

End Toy.

(** * Properties *)

(** ** Comparisons *)

Lemma Qlt_bool_iff (a b : Q) : Qlt_bool a b = true <-> a < b.
Proof.
  unfold Qlt_bool. rewrite negb_true_iff. split; intro H.
  - apply Qnot_le_lt. intro Hle. apply Qle_bool_iff in Hle. congruence.
  - destruct (Qle_bool b a) eqn:E; [|reflexivity].
    apply Qle_bool_iff in E. exfalso. exact (Qlt_not_le _ _ H E).
Qed.

Lemma Qlt_bool_false_iff (a b : Q) : Qlt_bool a b = false <-> b <= a.
Proof.
  unfold Qlt_bool. rewrite negb_false_iff. apply Qle_bool_iff.
Qed.

Lemma Qle_bool_false (a b : Q) : Qle_bool a b = false -> b < a.
Proof.
  intro H. apply Qnot_le_lt. intro Hle.
  apply Qle_bool_iff in Hle. congruence.
Qed.

Lemma TMath_Min_le_l (a b : Q) : TMath_Min a b <= a.
Proof.
  unfold TMath_Min. destruct (Qle_bool a b) eqn:E.
  - apply Qle_refl.
  - apply Qlt_le_weak. apply Qlt_bool_iff. unfold Qlt_bool. now rewrite E.
Qed.

Lemma TMath_Min_le_r (a b : Q) : TMath_Min a b <= b.
Proof.
  unfold TMath_Min. destruct (Qle_bool a b) eqn:E.
  - now apply Qle_bool_iff.
  - apply Qle_refl.
Qed.

Lemma TMath_Max_ge_l (a b : Q) : a <= TMath_Max a b.
Proof.
  unfold TMath_Max. destruct (Qle_bool b a) eqn:E.
  - apply Qle_refl.
  - apply Qlt_le_weak. apply Qlt_bool_iff. unfold Qlt_bool. now rewrite E.
Qed.

Lemma TMath_Max_ge_r (a b : Q) : b <= TMath_Max a b.
Proof.
  unfold TMath_Max. destruct (Qle_bool b a) eqn:E.
  - now apply Qle_bool_iff.
  - apply Qle_refl.
Qed.

(** ** Phase-space bounds *)

Lemma W_assertion_excludes_empty (W : Range1D_t) :
  W_assertion W = true -> no_phase_space W = false.
Proof.
  unfold W_assertion, no_phase_space. intro H.
  apply andb_true_iff in H. destruct H as [Hmin Hlt].
  apply Qle_bool_iff in Hmin. apply Qlt_bool_iff in Hlt.
  apply orb_false_iff. split.
  - destruct (Qle_bool (max W) 0) eqn:E; [|reflexivity].
    apply Qle_bool_iff in E. exfalso.
    apply (Qlt_irrefl (min W)).
    apply Qlt_le_trans with (max W); [exact Hlt|].
    apply Qle_trans with 0; assumption.
  - destruct (Qle_bool (max W) (min W)) eqn:E; [|reflexivity].
    apply Qle_bool_iff in E. exfalso. exact (Qlt_not_le _ _ Hlt E).
Qed.

Lemma empty_fails_W_assertion (W : Range1D_t) :
  no_phase_space W = true -> W_assertion W = false.
Proof.
  intro H. destruct (W_assertion W) eqn:E; [|reflexivity].
  apply W_assertion_excludes_empty in E. congruence.
Qed.

(** C8. The upper end of the W range is [min(Wcut, m)], where [m] is the
    physical maximum narrowed by the user cuts: it never exceeds [Wcut],
    whatever the cuts.  With the physical range [1, 2], the user cut
    W-max = 1.5 (W-min left at its default) and Wcut = 1.3, the range
    is [1, 1.3]. *)
Theorem C8_WRange_max_is_min_of_cut_and_Wcut
    {RndState : Type} (ext : Externals RndState)
    (g : RESKinematicsGenerator) (i : Interaction) :
  let cut := ApplyCutsToKineLimits (KineRange ext i kKVW) (fWmin g) (fWmax g) in
  max (WRange ext g i) = TMath_Min (fWcut g) (max cut)
  /\ max (WRange ext g i) <= fWcut g
  /\ max (WRange ext g i) <= max cut
  /\ min (WRange ext g i) = min cut
  /\ (KineRange ext i kKVW = mkRange1D 1 2 ->
      fWmin g = -999999 -> fWmax g = 1.5 -> fWcut g = 1.3 ->
      WRange ext g i = mkRange1D 1 1.3).
Proof.
  cbv zeta. unfold WRange. cbn [max min].
  split; [reflexivity|].
  split; [apply TMath_Min_le_l|].
  split; [apply TMath_Min_le_r|].
  split; [reflexivity|].
  intros HK Hmin Hmax Hcut. rewrite HK, Hmin, Hmax, Hcut. reflexivity.
Qed.

Lemma C8_WRange_witness :
  let ext := Toy.world (mkRange1D 1 2) (fun _ => mkRange1D 0.1 2) (fun _ => 1) 3 None in
  let g := Toy.generator [("W-max"%string, 1.5); ("Wcut"%string, 1.3)] true in
  WRange ext g Toy.interaction0 = mkRange1D 1 1.3.
Proof.
  cbv zeta.
  apply (C8_WRange_max_is_min_of_cut_and_Wcut
           (Toy.world (mkRange1D 1 2) (fun _ => mkRange1D 0.1 2) (fun _ => 1) 3 None)
           (Toy.generator [("W-max"%string, 1.5); ("Wcut"%string, 1.3)] true)
           Toy.interaction0); reflexivity.
Defined.

(** ** The steps of the selection loop *)

Section LoopFacts.

Context {RndState : Type}.
Variable ext : Externals RndState.
Variable g : RESKinematicsGenerator.
Variables Wmin Wmax dW xsec_max : Q.

Lemma try_kinematics_cases gW gQ2 gQD2 (st : LoopState) :
  (exists st', try_kinematics ext g gW gQ2 gQD2 st = Continue st' /\ iter st' = iter st)
  \/ (exists st', try_kinematics ext g gW gQ2 gQD2 st = Done (Returned st'))
  \/ (exists st', try_kinematics ext g gW gQ2 gQD2 st = Done (XSecLimitsExceeded st')).
Proof.
  unfold try_kinematics.
  destruct (fGenerateUniformly g); cbn [negb].
  - destruct (Qlt_bool 0 _); [right; left; eauto | left; eauto].
  - destruct (Rndm ext _) as [u r].
    destruct (AssertXSecLimits g _ _); [|right; right; eauto].
    destruct (Qlt_bool _ _); [right; left; eauto | left; eauto].
Qed.

Lemma generate_uniform_iter (st : LoopState) :
  match generate_uniform ext g Wmin dW st with
  | Skipped st' | Candidate _ _ _ st' => iter st' = iter st
  end.
Proof.
  unfold generate_uniform.
  destruct (Rndm ext (rnd st)) as [u r].
  destruct (no_phase_space _); [reflexivity|].
  destruct (Rndm ext r) as [u' r']. reflexivity.
Qed.

Lemma generate_importance_iter (st : LoopState) :
  match generate_importance ext g Wmin Wmax xsec_max st with
  | Skipped st' | Candidate _ _ _ st' => iter st' = iter st
  end.
Proof.
  unfold generate_importance.
  assert (H : iter (if (iter st =? 1)%Z
                    then init_envelope ext g Wmin Wmax xsec_max st else st) = iter st).
  { destruct (iter st =? 1)%Z; [|reflexivity].
    unfold init_envelope. destruct (GetExclusiveTag _); reflexivity. }
  destruct (GetRandom2 ext _ _) as [[gQD2 gW] r]. exact H.
Qed.

(** The ways one pass through the loop body can end. *)
Lemma iteration_cases (st : LoopState) :
  ((kRjMaxIterations ext <? next_iter st)%Z = true
   /\ iteration ext g Wmin Wmax dW xsec_max st
      = Done (Thrown exhausted_exception
                (raise_flag kNoValidKinematics (set_iter (next_iter st) st))))
  \/ ((kRjMaxIterations ext <? next_iter st)%Z = false
      /\ ((exists st', iteration ext g Wmin Wmax dW xsec_max st = Continue st'
                       /\ iter st' = next_iter st)
          \/ (exists st', iteration ext g Wmin Wmax dW xsec_max st = Done (Returned st'))
          \/ (exists st', iteration ext g Wmin Wmax dW xsec_max st
                          = Done (XSecLimitsExceeded st')))).
Proof.
  unfold iteration, next_iter. cbn [iter set_iter].
  destruct (kRjMaxIterations ext <? (iter st + 1) mod 2 ^ 32)%Z eqn:E.
  - left. split; reflexivity.
  - right. split; [reflexivity|].
    set (st1 := set_iter ((iter st + 1) mod 2 ^ 32)%Z st).
    assert (Hst1 : iter st1 = ((iter st + 1) mod 2 ^ 32)%Z) by reflexivity.
    destruct (fGenerateUniformly g).
    + pose proof (generate_uniform_iter st1) as Hd.
      destruct (generate_uniform ext g Wmin dW st1) as [st2|gW gQ2 gQD2 st2].
      * left. exists st2. split; [reflexivity|congruence].
      * destruct (try_kinematics_cases gW gQ2 gQD2 st2)
          as [[st' [H1 H2]]|[[st' H1]|[st' H1]]]; rewrite H1.
        -- left. exists st'. split; [reflexivity|congruence].
        -- right; left; eauto.
        -- right; right; eauto.
    + pose proof (generate_importance_iter st1) as Hd.
      destruct (generate_importance ext g Wmin Wmax xsec_max st1) as [st2|gW gQ2 gQD2 st2].
      * left. exists st2. split; [reflexivity|congruence].
      * destruct (try_kinematics_cases gW gQ2 gQD2 st2)
          as [[st' [H1 H2]]|[[st' H1]|[st' H1]]]; rewrite H1.
        -- left. exists st'. split; [reflexivity|congruence].
        -- right; left; eauto.
        -- right; right; eauto.
Qed.

End LoopFacts.

(** ** Termination of the rejection loop *)

Section LoopBound.

Context {RndState : Type}.
Variable ext : Externals RndState.
Variable g : RESKinematicsGenerator.
Variables Wmin Wmax dW xsec_max : Q.

Hypothesis N_fits : (0 <= kRjMaxIterations ext < 2 ^ 32 - 1)%Z.

Lemma next_iter_small (st : LoopState (RndState := RndState)) :
  (0 <= iter st <= kRjMaxIterations ext)%Z -> next_iter st = (iter st + 1)%Z.
Proof.
  intro H. unfold next_iter. apply Z.mod_small.
  change (2 ^ 32)%Z with 4294967296%Z in *. lia.
Qed.

Lemma loop_leaves (n : nat) : forall st : LoopState,
  (0 <= iter st)%Z -> (iter st + Z.of_nat n = kRjMaxIterations ext)%Z ->
  exists o, rejection_loop ext g (S n) Wmin Wmax dW xsec_max st = Some o.
Proof.
  induction n as [|n IH]; intros st H0 Hn.
  - destruct (iteration_cases ext g Wmin Wmax dW xsec_max st) as [[Hlt Hit]|[Hlt _]].
    + exists (Thrown exhausted_exception
                (raise_flag kNoValidKinematics (set_iter (next_iter st) st))).
      cbn [rejection_loop]. now rewrite Hit.
    + exfalso. rewrite next_iter_small in Hlt by lia.
      apply Z.ltb_ge in Hlt. lia.
  - destruct (iteration_cases ext g Wmin Wmax dW xsec_max st)
      as [[Hlt Hit]|[Hlt [[st' [Hit Hiter]]|[[st' Hit]|[st' Hit]]]]];
      cbn [rejection_loop]; rewrite Hit; eauto.
    rewrite next_iter_small in Hiter by lia.
    apply (IH st'); lia.
Qed.

Lemma loop_exhausted (fuel : nat) : forall (st : LoopState) (o : Outcome),
  (0 <= iter st <= kRjMaxIterations ext)%Z ->
  rejection_loop ext g fuel Wmin Wmax dW xsec_max st = Some o ->
  (forall st', o <> Returned st') ->
  (forall st', o <> XSecLimitsExceeded st') ->
  rejection_loop ext g (Z.to_nat (kRjMaxIterations ext - iter st)) Wmin Wmax dW xsec_max st = None
  /\ rejection_loop ext g (S (Z.to_nat (kRjMaxIterations ext - iter st))) Wmin Wmax dW xsec_max st = Some o
  /\ exists st', o = Thrown exhausted_exception st'
       /\ TestBitNumber kNoValidKinematics (EventFlags (evrec st')) = true
       /\ iter st' = (kRjMaxIterations ext + 1)%Z.
Proof.
  induction fuel as [|fuel IH]; intros st o Hit Hrun Hacc Hlim.
  - discriminate.
  - cbn [rejection_loop] in Hrun.
    destruct (iteration_cases ext g Wmin Wmax dW xsec_max st)
      as [[Hlt Hstep]|[Hlt [[st' [Hstep Hiter]]|[[st' Hstep]|[st' Hstep]]]]];
      rewrite Hstep in Hrun.
    + rewrite next_iter_small in Hlt by lia.
      apply Z.ltb_lt in Hlt.
      assert (Heq : iter st = kRjMaxIterations ext) by lia.
      injection Hrun as <-.
      replace (kRjMaxIterations ext - iter st)%Z with 0%Z by lia.
      cbn [Z.to_nat rejection_loop]. rewrite Hstep.
      split; [reflexivity|]. split; [reflexivity|].
      eexists. split; [reflexivity|]. split; [reflexivity|].
      cbn. rewrite next_iter_small by lia. lia.
    + rewrite next_iter_small in Hlt, Hiter by lia.
      apply Z.ltb_ge in Hlt.
      destruct (IH st' o) as [Hnone [Hsome Hex]]; try assumption; [lia|].
      replace (Z.to_nat (kRjMaxIterations ext - iter st)) with (S (Z.to_nat (kRjMaxIterations ext - iter st'))) by lia.
      cbn [rejection_loop]. rewrite Hstep.
      split; [exact Hnone|]. split; [exact Hsome|exact Hex].
    + injection Hrun as <-. exfalso. exact (Hacc st' eq_refl).
    + injection Hrun as <-. exfalso. exact (Hlim st' eq_refl).
Qed.

End LoopBound.

(** C2 (amended).  Provided the iteration ceiling is below the largest
    value of the 32-bit counter, the loop is always left after at most
    [kRjMaxIterations + 1] entries.  In a run in which no trial is
    accepted and the cross-section-limit check never stops the process,
    the loop body is entered exactly [kRjMaxIterations + 1] times: the
    first [kRjMaxIterations] entries run a trial, the last one raises
    the exception with reason "Couldn't select kinematics" and
    fast-forward switched on, after setting the flag
    [kNoValidKinematics] on the event record. *)
Theorem C2_loop_exhausts_at_iteration_ceiling
    {RndState : Type} (ext : Externals RndState) (g : RESKinematicsGenerator)
    (Wmin Wmax dW xsec_max : Q) (st0 : LoopState) :
  (0 <= kRjMaxIterations ext < 2 ^ 32 - 1)%Z ->
  iter st0 = 0%Z ->
  let N := Z.to_nat (kRjMaxIterations ext) in
  let loop fuel := rejection_loop ext g fuel Wmin Wmax dW xsec_max st0 in
  (exists o, loop (S N) = Some o)
  /\ (forall fuel o,
        loop fuel = Some o ->
        (forall st, o <> Returned st) ->
        (forall st, o <> XSecLimitsExceeded st) ->
        loop N = None
        /\ loop (S N) = Some o
        /\ exists st, o = Thrown exhausted_exception st
             /\ ShowReason exhausted_exception = "Couldn't select kinematics"%string
             /\ FastForward exhausted_exception = true
             /\ TestBitNumber kNoValidKinematics (EventFlags (evrec st)) = true
             /\ iter st = (kRjMaxIterations ext + 1)%Z).
Proof.
  intros HN H0 N loop. split.
  - apply (loop_leaves ext g Wmin Wmax dW xsec_max HN N st0); subst N; lia.
  - intros fuel o Hrun Hacc Hlim.
    destruct (loop_exhausted ext g Wmin Wmax dW xsec_max HN fuel st0 o)
      as [Hnone [Hsome [st [Ho [Hflag Hiter]]]]]; try assumption; [lia|].
    rewrite H0, Z.sub_0_r in Hnone, Hsome.
    split; [exact Hnone|]. split; [exact Hsome|].
    exists st. repeat split; assumption.
Qed.

Lemma C2_loop_exhausts_witness :
  let ext := Toy.world (mkRange1D 1 2) (fun _ => mkRange1D 0.1 2) (fun _ => 0) 3 None in
  let g := Toy.generator [] true in
  let st0 := mkLoop 0 Toy.event0 (fEnvelope g) [0.5; 0.25] in
  rejection_loop ext g 3 1 2 1 (-1) st0 = None
  /\ exists st, rejection_loop ext g 4 1 2 1 (-1) st0 = Some (Thrown exhausted_exception st)
                /\ iter st = 4%Z.
Proof.
  cbv zeta.
  destruct (C2_loop_exhausts_at_iteration_ceiling
              (Toy.world (mkRange1D 1 2) (fun _ => mkRange1D 0.1 2) (fun _ => 0) 3 None)
              (Toy.generator [] true) 1 2 1 (-1)
              (mkLoop 0 Toy.event0 (fEnvelope (Toy.generator [] true)) [0.5; 0.25]))
    as [_ H].
  - cbn. lia.
  - reflexivity.
  - destruct (H 4%nat _ eq_refl) as [Hnone [Hsome [st [Ho [_ [_ [_ Hiter]]]]]]].
    + intros st E. discriminate E.
    + intros st E. discriminate E.
    + split; [exact Hnone|]. exists st. split; [|exact Hiter].
      rewrite <- Ho. exact Hsome.
Defined.

(** C2, counterexample to the unamended statement.  A run of the loop
    (importance-sampled mode, ceiling 1000) in which no trial is
    accepted and which ends in its first iteration, stopped by the
    cross-section-limit check: it neither performs 1000 iterations nor
    raises the exhaustion failure. *)
Lemma C2_counterexample :
  let ext := Toy.world (mkRange1D 1 2) (fun _ => mkRange1D 0.1 2) (fun _ => 5) 1000 (Some 1) in
  let g := Toy.generator [] false in
  (exists st,
     ProcessEventRecord ext g 1 Toy.event0 [0.5; 0.5; 0.5] = Some (XSecLimitsExceeded st)
     /\ iter st = 1%Z
     /\ TestBitNumber kNoValidKinematics (EventFlags (evrec st)) = false)
  /\ ~ (forall fuel o,
         ProcessEventRecord ext g fuel Toy.event0 [0.5; 0.5; 0.5] = Some o ->
         (forall st, o <> Returned st) ->
         exists st, o = Thrown exhausted_exception st).
Proof.
  cbv zeta. split.
  - eexists. split; [vm_compute; reflexivity|]. split; reflexivity.
  - intro H.
    destruct (H 1%nat _ eq_refl) as [st Hst].
    + intros st E. discriminate E.
    + discriminate Hst.
Qed.

(** ** The acceptance test of the importance-sampled mode *)

Lemma AssertXSecLimits_spec (g : RESKinematicsGenerator) (xsec ceiling : Q) :
  AssertXSecLimits g xsec ceiling = false
  <-> (ceiling < xsec /\ fMaxXSecDiffTolerance g * ceiling < xsec - ceiling).
Proof.
  unfold AssertXSecLimits. rewrite negb_false_iff, andb_true_iff.
  now rewrite !Qlt_bool_iff.
Qed.

Lemma LoadConfigData_tolerance (fConfig : Registry) (gc_Wcut : Q)
    (g : RESKinematicsGenerator) :
  LoadConfigData fConfig gc_Wcut = Some g ->
  fMaxXSecDiffTolerance g = GetDoubleDef fConfig "max-xsec-diff-tolerance" 0
  /\ 0 <= fMaxXSecDiffTolerance g.
Proof.
  unfold LoadConfigData.
  destruct (Qle_bool 0 (GetDoubleDef fConfig "max-xsec-diff-tolerance" 0)) eqn:E;
    [|discriminate].
  intro H. injection H as <-. cbn. split; [reflexivity|].
  now apply Qle_bool_iff.
Qed.

(** C1.  A pass through the loop body in importance-sampled mode, below
    the iteration ceiling: the candidate [(gQD2, gW)] is drawn from the
    envelope, the control variable is the envelope density at the
    candidate times the next uniform value, and
    - if the cross section at the candidate exceeds that density by
      more than the fraction [fMaxXSecDiffTolerance] of it, the pass
      stops the process at the limit check, whatever the comparison
      would give;
    - otherwise the candidate is accepted if and only if
      [control < J * xsec], and the loop goes on if and only if not.
    The tolerance is the configured one, asserted non-negative when the
    configuration is loaded. *)
Theorem C1_importance_sampled_acceptance
    {RndState : Type} (ext : Externals RndState) (g : RESKinematicsGenerator)
    (Wmin Wmax dW xsec_max : Q) (st : LoopState) :
  fGenerateUniformly g = false ->
  (kRjMaxIterations ext <? next_iter st)%Z = false ->
  let run := iteration ext g Wmin Wmax dW xsec_max st in
  let st1 := set_iter (next_iter st) st in
  let st2 := if (iter st1 =? 1)%Z
             then init_envelope ext g Wmin Wmax xsec_max st1 else st1 in
  let drawn := GetRandom2 ext (envelope st2) (rnd st2) in
  let gQD2 := fst (fst drawn) in
  let gW := snd (fst drawn) in
  let gQ2 := QD2toQ2 ext gQD2 in
  let candidate := SetQ2 gQ2 false (SetW gW false (GetInteraction (evrec st2))) in
  let xsec := XSec ext candidate kPSWQ2fE in
  let density := Eval ext (envelope st2) gQD2 gW in
  let u := fst (Rndm ext (snd drawn)) in
  let control := density * u in
  let J := Jacobian ext candidate kPSWQ2fE kPSWQD2fE in
  let exceeds := density < xsec
                 /\ fMaxXSecDiffTolerance g * density < xsec - density in
  (exceeds -> exists st', run = Done (XSecLimitsExceeded st'))
  /\ (~ exceeds ->
      ((exists st', run = Done (Returned st')) <-> control < J * xsec)
      /\ ((exists st', run = Continue st') <-> ~ control < J * xsec))
  /\ (forall fConfig gc_Wcut,
        LoadConfigData fConfig gc_Wcut = Some g ->
        fMaxXSecDiffTolerance g = GetDoubleDef fConfig "max-xsec-diff-tolerance" 0
        /\ 0 <= fMaxXSecDiffTolerance g).
Proof.
  intros Hmode Hceil. cbv zeta.
  unfold iteration. fold (next_iter st).
  cbn [iter set_iter]. rewrite Hceil, Hmode.
  unfold generate_importance. cbn [iter set_iter].
  set (st2 := if (next_iter st =? 1)%Z
              then init_envelope ext g Wmin Wmax xsec_max (set_iter (next_iter st) st)
              else set_iter (next_iter st) st).
  destruct (GetRandom2 ext (envelope st2) (rnd st2)) as [[gQD2 gW] r] eqn:Edraw.
  cbn [fst snd].
  unfold try_kinematics. rewrite Hmode. cbn [negb].
  cbn [set_interaction set_evrec set_rnd evrec envelope rnd
       GetInteraction SetInteraction].
  destruct (Rndm ext r) as [u r'] eqn:Eu. cbn [fst].
  set (cand := SetQ2 (QD2toQ2 ext gQD2) false
                 (SetW gW false (GetInteraction (evrec st2)))).
  set (xsec := XSec ext cand kPSWQ2fE).
  set (density := Eval ext (envelope st2) gQD2 gW).
  split; [|split].
  - intro Hex. apply AssertXSecLimits_spec in Hex. rewrite Hex. eauto.
  - intro Hnot.
    destruct (AssertXSecLimits g xsec density) eqn:Ea.
    2:{ exfalso. apply Hnot. now apply AssertXSecLimits_spec. }
    destruct (Qlt_bool (density * u) (Jacobian ext cand kPSWQ2fE kPSWQD2fE * xsec)) eqn:Ecmp.
    + apply Qlt_bool_iff in Ecmp. split; split.
      * intros _. exact Ecmp.
      * intros _. eauto.
      * intros [st' E]. discriminate E.
      * intro Hn. contradiction.
    + assert (Hn : ~ density * u < Jacobian ext cand kPSWQ2fE kPSWQD2fE * xsec).
      { intro Hlt. apply Qlt_bool_iff in Hlt. congruence. }
      split; split.
      * intros [st' E]. discriminate E.
      * intro Hlt. contradiction.
      * intros _. exact Hn.
      * intros _. eauto.
  - intros fConfig gc_Wcut Hload.
    exact (LoadConfigData_tolerance fConfig gc_Wcut g Hload).
Qed.

Lemma C1_importance_sampled_witness :
  let ext := Toy.world (mkRange1D 1 2) (fun _ => mkRange1D 0.1 2) (fun _ => 0.8) 1000 (Some 1) in
  let g := Toy.generator [] false in
  let st := mkLoop 0 Toy.event0 (fEnvelope g) [0.5; 0.5; 0.5] in
  exists st', iteration ext g 1 1.7 0.7 1 st = Done (Returned st').
Proof.
  cbv zeta.
  destruct (C1_importance_sampled_acceptance
              (Toy.world (mkRange1D 1 2) (fun _ => mkRange1D 0.1 2) (fun _ => 0.8) 1000 (Some 1))
              (Toy.generator [] false) 1 1.7 0.7 1
              (mkLoop 0 Toy.event0 (fEnvelope (Toy.generator [] false)) [0.5; 0.5; 0.5])
              eq_refl eq_refl)
    as [_ [H _]].
  cbv zeta in H.
  assert (Hnot : ~ (1 < 0.8 /\ 0 * 1 < 0.8 - 1)).
  { intros [Hlt _]. apply Qlt_bool_iff in Hlt. vm_compute in Hlt. discriminate Hlt. }
  destruct (H Hnot) as [[_ Hacc] _].
  apply Hacc. apply Qlt_bool_iff. vm_compute. reflexivity.
Defined.

(** ** The maximum cross-section search *)

Lemma increasing_iff (xsec xseclast : Q) :
  Qle_bool 0 (xsec - xseclast) = true <-> xseclast <= xsec.
Proof.
  rewrite Qle_bool_iff. unfold Qminus. symmetry. apply Qle_minus_iff.
Qed.

Lemma not_increasing_iff (xsec xseclast : Q) :
  Qle_bool 0 (xsec - xseclast) = false <-> xsec < xseclast.
Proof.
  split; intro H.
  - apply Qnot_le_lt. intro Hle. apply increasing_iff in Hle. congruence.
  - destruct (Qle_bool 0 (xsec - xseclast)) eqn:E; [|reflexivity].
    apply increasing_iff in E. exfalso. exact (Qlt_not_le _ _ H E).
Qed.

Lemma SetQ2_overwrites (a b : Q) (i : Interaction) :
  SetQ2 a false (SetQ2 b false i) = SetQ2 a false i.
Proof. reflexivity. Qed.

Section ScanFacts.

Context {RndState : Type}.
Variable ext : Externals RndState.
Variable i : Interaction.
Variable rQ2 : Range1D_t.

Lemma sample_based (q : Q) (s : ScanState) :
  based i s ->
  sample ext q s
  = (xsec_at ext i q,
     mkScan (SetQ2 q false i) (TMath_Max (xsec_at ext i q) (max_xsec s))
            (scan_log s ++ [log_entry ext i q])).
Proof.
  intro Hb. unfold sample, xsec_at, log_entry, xsec_at. now rewrite Hb.
Qed.

Lemma sample_keeps (q : Q) (s : ScanState) :
  based i s -> tracked s ->
  based i (snd (sample ext q s)) /\ tracked (snd (sample ext q s))
  /\ scan_log (snd (sample ext q s)) = scan_log s ++ [log_entry ext i q].
Proof.
  intros Hb Ht. rewrite (sample_based q s Hb). cbn [snd].
  split; [|split].
  - intro q'. reflexivity.
  - unfold tracked, running_max in *. cbn [max_xsec scan_log].
    rewrite fold_left_app. cbn [fold_left]. now rewrite <- Ht.
  - reflexivity.
Qed.

Lemma backward_steps_log (n : nat) : forall (Q2 d : Q) (s : ScanState),
  based i s -> tracked s ->
  based i (backward_steps ext n Q2 d (min rQ2) s)
  /\ tracked (backward_steps ext n Q2 d (min rQ2) s)
  /\ scan_log (backward_steps ext n Q2 d (min rQ2) s)
     = scan_log s
       ++ map (log_entry ext i)
              (filter (fun q => negb (Qlt_bool q (min rQ2))) (back_points ext n Q2 d)).
Proof.
  induction n as [|n IH]; intros Q2 d s Hb Ht.
  - cbn. rewrite app_nil_r. auto.
  - cbn [backward_steps back_points filter].
    set (q := TMath_Exp ext (TMath_Log ext Q2 - d)).
    destruct (Qlt_bool q (min rQ2)); cbn [negb].
    + apply IH; assumption.
    + destruct (sample_keeps q s Hb Ht) as [Hb' [Ht' Hl']].
      destruct (IH q d (snd (sample ext q s)) Hb' Ht') as [Hb2 [Ht2 Hl2]].
      split; [exact Hb2|]. split; [exact Ht2|].
      rewrite Hl2, Hl'. cbn [map]. now rewrite <- app_assoc.
Qed.

Lemma scan_step (n j0 : nat) (xl : Q) (s : ScanState) :
  based i s ->
  scan_from ext rQ2 (S n) j0 xl s
  = let s1 := snd (sample ext (grid_Q2 ext rQ2 j0) s) in
    if negb (Qle_bool 0 (grid_xsec ext i rQ2 j0 - xl))
    then backward_steps ext kNQ2b (grid_Q2 ext rQ2 j0)
           (dlogQ2 ext rQ2 / inject_Z (Z.of_nat kNQ2b)) (min rQ2) s1
    else scan_from ext rQ2 n (S j0) (grid_xsec ext i rQ2 j0) s1.
Proof.
  intro Hb. unfold scan_from. cbn [Q2_scan]. fold (grid_Q2 ext rQ2 j0).
  rewrite (sample_based _ s Hb). cbn [snd]. fold (grid_xsec ext i rQ2 j0).
  replace (Z.of_nat j0 + 1)%Z with (Z.of_nat (S j0)) by lia.
  reflexivity.
Qed.

Lemma scan_tracked (n : nat) : forall (j0 : nat) (xl : Q) (s : ScanState),
  based i s -> tracked s -> tracked (scan_from ext rQ2 n j0 xl s).
Proof.
  induction n as [|n IH]; intros j0 xl s Hb Ht.
  - exact Ht.
  - rewrite (scan_step n j0 xl s Hb). cbv zeta.
    destruct (sample_keeps (grid_Q2 ext rQ2 j0) s Hb Ht) as [Hb' [Ht' _]].
    destruct (negb _).
    + apply backward_steps_log; assumption.
    + apply IH; assumption.
Qed.

(** The first strict decrease, [m] steps after the entry of the scan,
    starts the refined sub-scan and ends the scan. *)
Lemma scan_drop (m : nat) : forall (n j0 : nat) (xl : Q) (s : ScanState),
  based i s -> tracked s ->
  (m < n)%nat ->
  (forall j, (j < m)%nat -> before ext i rQ2 xl j0 j <= grid_xsec ext i rQ2 (j0 + j)) ->
  grid_xsec ext i rQ2 (j0 + m) < before ext i rQ2 xl j0 m ->
  scan_log (scan_from ext rQ2 n j0 xl s)
  = scan_log s
    ++ map (fun j => log_entry ext i (grid_Q2 ext rQ2 j)) (seq j0 (S m))
    ++ refined_log ext i rQ2 (grid_Q2 ext rQ2 (j0 + m))
         (dlogQ2 ext rQ2 / inject_Z (Z.of_nat kNQ2b)).
Proof.
  induction m as [|m IH]; intros n j0 xl s Hb Ht Hmn Hinc Hdrop.
  - destruct n as [|n]; [lia|].
    rewrite (scan_step n j0 xl s Hb). cbv zeta.
    rewrite Nat.add_0_r in Hdrop. cbn [before] in Hdrop.
    apply not_increasing_iff in Hdrop. rewrite Hdrop. cbn [negb].
    destruct (sample_keeps (grid_Q2 ext rQ2 j0) s Hb Ht) as [Hb' [Ht' Hl']].
    destruct (backward_steps_log kNQ2b (grid_Q2 ext rQ2 j0)
                (dlogQ2 ext rQ2 / inject_Z (Z.of_nat kNQ2b)) _ Hb' Ht')
      as [_ [_ Hl]].
    rewrite Hl, Hl'. rewrite Nat.add_0_r. cbn [seq map].
    unfold refined_log. now rewrite <- app_assoc.
  - destruct n as [|n]; [lia|].
    rewrite (scan_step n j0 xl s Hb). cbv zeta.
    pose proof (Hinc O (Nat.lt_0_succ m)) as H0.
    rewrite Nat.add_0_r in H0. cbn [before] in H0.
    apply increasing_iff in H0. rewrite H0. cbn [negb].
    destruct (sample_keeps (grid_Q2 ext rQ2 j0) s Hb Ht) as [Hb' [Ht' Hl']].
    rewrite (IH n (S j0) (grid_xsec ext i rQ2 j0) _ Hb' Ht').
    + rewrite Hl'. replace (S j0 + m)%nat with (j0 + S m)%nat by lia.
      rewrite <- app_assoc. reflexivity.
    + lia.
    + intros j Hj. specialize (Hinc (S j) ltac:(lia)).
      replace (S j0 + j)%nat with (j0 + S j)%nat by lia.
      destruct j as [|j]; cbn [before] in *.
      * rewrite Nat.add_0_r in Hinc. exact Hinc.
      * replace (S j0 + j)%nat with (j0 + S j)%nat by lia. exact Hinc.
    + replace (S j0 + m)%nat with (j0 + S m)%nat by lia.
      destruct m as [|m]; cbn [before] in *.
      * rewrite Nat.add_0_r in Hdrop. exact Hdrop.
      * replace (S j0 + m)%nat with (j0 + S m)%nat by lia. exact Hdrop.
Qed.

(** Without a strict decrease the coarse grid is scanned to its end. *)
Lemma scan_no_drop (n : nat) : forall (j0 : nat) (xl : Q) (s : ScanState),
  based i s -> tracked s ->
  (forall j, (j < n)%nat -> before ext i rQ2 xl j0 j <= grid_xsec ext i rQ2 (j0 + j)) ->
  scan_log (scan_from ext rQ2 n j0 xl s)
  = scan_log s ++ map (fun j => log_entry ext i (grid_Q2 ext rQ2 j)) (seq j0 n).
Proof.
  induction n as [|n IH]; intros j0 xl s Hb Ht Hinc.
  - cbn. now rewrite app_nil_r.
  - rewrite (scan_step n j0 xl s Hb). cbv zeta.
    pose proof (Hinc O (Nat.lt_0_succ n)) as H0.
    rewrite Nat.add_0_r in H0. cbn [before] in H0.
    apply increasing_iff in H0. rewrite H0. cbn [negb].
    destruct (sample_keeps (grid_Q2 ext rQ2 j0) s Hb Ht) as [Hb' [Ht' Hl']].
    rewrite (IH (S j0) (grid_xsec ext i rQ2 j0) _ Hb' Ht').
    + rewrite Hl'. rewrite <- app_assoc. reflexivity.
    + intros j Hj. specialize (Hinc (S j) ltac:(lia)).
      replace (S j0 + j)%nat with (j0 + S j)%nat by lia.
      destruct j as [|j]; cbn [before] in *.
      * rewrite Nat.add_0_r in Hinc. exact Hinc.
      * replace (S j0 + j)%nat with (j0 + S j)%nat by lia. exact Hinc.
Qed.

End ScanFacts.

(** C4 (amended).  In the logarithmic Q2 scan, at the first step whose
    sample is strictly below the previous one (the previous one being
    -1 before the first step), the step in log Q2 is divided by 3 and
    three backward steps are made from the current point, the cross
    section being evaluated, and entered into the running maximum, at
    each back point that is not below the lower end of the Q2 range;
    the scan then ends, so the refinement happens at most once.  A
    sample equal to the previous one does not start it: when no sample
    is strictly below its predecessor the 15 points of the coarse grid
    are all evaluated and nothing else is.  In every case the maximum
    returned by the scan is the running maximum of all the evaluations
    logged. *)
Theorem C4_refinement_at_first_strict_decrease
    {RndState : Type} (ext : Externals RndState)
    (i : Interaction) (rQ2 : Range1D_t) :
  let s := scan_grid ext i rQ2 in
  max_xsec s = running_max (scan_log s)
  /\ (forall k : nat,
        (k < NQ2)%nat ->
        (forall j, (j < k)%nat -> xsec_before ext i rQ2 j <= grid_xsec ext i rQ2 j) ->
        grid_xsec ext i rQ2 k < xsec_before ext i rQ2 k ->
        scan_log s
        = coarse_log ext i rQ2 k
          ++ refined_log ext i rQ2 (grid_Q2 ext rQ2 k) (dlogQ2 ext rQ2 / 3))
  /\ ((forall j, (j < NQ2)%nat -> xsec_before ext i rQ2 j <= grid_xsec ext i rQ2 j) ->
      scan_log s = coarse_log ext i rQ2 (NQ2 - 1)).
Proof.
  cbv zeta. unfold scan_grid.
  assert (Hb : based i (mkScan i 0 [])) by (intro q; reflexivity).
  assert (Ht : tracked (mkScan i 0 [])) by reflexivity.
  split; [|split].
  - exact (scan_tracked ext i rQ2 NQ2 0 (-1) _ Hb Ht).
  - intros k Hk Hinc Hdrop.
    exact (scan_drop ext i rQ2 k NQ2 0 (-1) _ Hb Ht Hk Hinc Hdrop).
  - intro Hinc.
    exact (scan_no_drop ext i rQ2 NQ2 0 (-1) _ Hb Ht Hinc).
Qed.

Lemma C4_refinement_witness :
  let ext := Toy.world (mkRange1D 1 2) (fun _ => mkRange1D 1 15) Toy.peak 3 None in
  let rQ2 := mkRange1D 1 15 in
  let i := Toy.interaction0 in
  scan_log (scan_grid ext i rQ2)
  = coarse_log ext i rQ2 3
    ++ refined_log ext i rQ2 (grid_Q2 ext rQ2 3) (dlogQ2 ext rQ2 / 3).
Proof.
  cbv zeta.
  apply (C4_refinement_at_first_strict_decrease
           (Toy.world (mkRange1D 1 2) (fun _ => mkRange1D 1 15) Toy.peak 3 None)
           Toy.interaction0 (mkRange1D 1 15)).
  - unfold NQ2. lia.
  - intros j Hj. apply Qle_bool_iff.
    destruct j as [|[|[|j]]]; [vm_compute; reflexivity ..|lia].
  - apply Qlt_bool_iff. vm_compute. reflexivity.
Defined.

(** C4, counterexample to the unamended statement.  With a constant
    cross section, the sample of step 1 is less than or equal to the previous one and no earlier step has that property,
    yet the search neither refines nor ends early: it evaluates the 15
    points of the coarse grid. *)
Lemma C4_counterexample :
  let ext := Toy.world (mkRange1D 1 2) (fun _ => mkRange1D 1 15) (fun _ => 1) 3 None in
  let rQ2 := mkRange1D 1 15 in
  let i := Toy.interaction0 in
  grid_xsec ext i rQ2 1 <= xsec_before ext i rQ2 1
  /\ ~ grid_xsec ext i rQ2 0 <= xsec_before ext i rQ2 0
  /\ scan_log (scan_grid ext i rQ2) = coarse_log ext i rQ2 14
  /\ List.length (scan_log (scan_grid ext i rQ2)) = 15%nat
  /\ scan_log (scan_grid ext i rQ2)
     <> coarse_log ext i rQ2 1
        ++ refined_log ext i rQ2 (grid_Q2 ext rQ2 1) (dlogQ2 ext rQ2 / 3).
Proof.
  cbv zeta. split; [|split; [|split; [|split]]].
  - apply Qle_bool_iff. vm_compute. reflexivity.
  - intro H. apply Qle_bool_iff in H. vm_compute in H. discriminate H.
  - vm_compute. reflexivity.
  - vm_compute. reflexivity.
  - intro H. apply (f_equal (@List.length (Q * Q))) in H.
    vm_compute in H. discriminate H.
Qed.

(** The safety factor of the search.  When the Q2 range is not
    rejected, the value returned is the maximum found by the scan times
    a factor: the fixed factor 2 when the probe energy is below 0.8,
    the configured factor (option "max-xsec-safety-factor", default
    1.25) otherwise.  The two factors are never compared. *)
Lemma ComputeMaxXSec_applies_safety_factor
    {RndState : Type} (ext : Externals RndState)
    (g : RESKinematicsGenerator) (i : Interaction) :
  let E := GetProbeE i in
  let i' := SetW (scan_W ext g i) false i in
  let rQ2 := Q2Range ext g i' in
  (Q2_degenerate ext rQ2 = false ->
     fst (ComputeMaxXSec ext g i)
     = max_xsec (scan_grid ext i' rQ2) * safety_factor g E)
  /\ (E < 0.8 -> safety_factor g E = 2)
  /\ (~ E < 0.8 -> safety_factor g E = fSafetyFactor g)
  /\ (forall fConfig gc_Wcut,
        LoadConfigData fConfig gc_Wcut = Some g ->
        fSafetyFactor g = GetDoubleDef fConfig "max-xsec-safety-factor" 1.25).
Proof.
  cbv zeta. split; [|split; [|split]].
  - intro Hd. unfold ComputeMaxXSec. rewrite Hd. reflexivity.
  - intro HE. unfold safety_factor.
    apply Qlt_bool_iff in HE. now rewrite HE.
  - intro HE. unfold safety_factor.
    destruct (Qlt_bool (GetProbeE i) 0.8) eqn:E; [|reflexivity].
    apply Qlt_bool_iff in E. contradiction.
  - intros fConfig gc_Wcut. unfold LoadConfigData.
    destruct (Qle_bool 0 _); [|discriminate].
    intro H. injection H as <-. reflexivity.
Qed.

(** C9.  The code at the configuration max-xsec-safety-factor = 3.
    For a probe energy of 0.5 (below the threshold 0.8) the search
    multiplies the maximum of its scan by the fixed factor 2; for a
    probe energy of 1 it multiplies by the configured factor 3.  So the
    factor applied at the lower energy is the smaller of the two, and
    the fixed factor is not larger than the configurable one. *)
Theorem C9_low_energy_factor_smaller_than_configured :
  let ext := Toy.world (mkRange1D 1 2) (fun _ => mkRange1D 1 15) Toy.peak 3 None in
  let fConfig := Toy.config [("max-xsec-safety-factor"%string, 3)] false in
  let lo := mkInteraction 0.5 0.938 None Toy.no_kinematics false false in
  let hi := mkInteraction 1 0.938 None Toy.no_kinematics false false in
  exists g,
    LoadConfigData fConfig 1.7 = Some g
    /\ fSafetyFactor g = 3
    /\ GetProbeE lo < 0.8
    /\ safety_factor g (GetProbeE lo) = 2
    /\ fst (ComputeMaxXSec ext g lo)
       = max_xsec (scan_grid ext (SetW (scan_W ext g lo) false lo)
                     (Q2Range ext g (SetW (scan_W ext g lo) false lo))) * 2
    /\ ~ GetProbeE hi < 0.8
    /\ safety_factor g (GetProbeE hi) = 3
    /\ fst (ComputeMaxXSec ext g hi)
       = max_xsec (scan_grid ext (SetW (scan_W ext g hi) false hi)
                     (Q2Range ext g (SetW (scan_W ext g hi) false hi))) * 3
    /\ safety_factor g (GetProbeE lo) < safety_factor g (GetProbeE hi)
    /\ ~ fSafetyFactor g < safety_factor g (GetProbeE lo).
Proof.
  cbv zeta. eexists. split; [reflexivity|].
  split; [reflexivity|]. split; [reflexivity|]. split; [reflexivity|].
  split; [reflexivity|].
  split; [intro H; vm_compute in H; discriminate H|].
  split; [reflexivity|]. split; [reflexivity|]. split; [reflexivity|].
  intro H. vm_compute in H. discriminate H.
Qed.

(** ** What the selection leaves in the interaction *)

Lemma frame_refl (i : Interaction) : frame i i.
Proof. unfold frame. repeat split; auto. Qed.

Lemma frame_trans (i0 i1 i2 : Interaction) :
  frame i0 i1 -> frame i1 i2 -> frame i0 i2.
Proof.
  unfold frame. intros H1 H2.
  destruct H1 as (A1 & B1 & C1 & D1 & E1 & F1 & G1 & K1).
  destruct H2 as (A2 & B2 & C2 & D2 & E2 & F2 & G2 & K2).
  repeat split; try congruence; auto.
Qed.

Lemma frame_SetW (v : Q) (i : Interaction) : frame i (SetW v false i).
Proof. unfold frame. cbn. repeat split; auto; discriminate. Qed.

Lemma frame_SetQ2 (v : Q) (i : Interaction) : frame i (SetQ2 v false i).
Proof. unfold frame. cbn. repeat split; auto; discriminate. Qed.

Lemma frame_SkipProcessChk (b : bool) (i : Interaction) :
  frame i (SetBit_SkipProcessChk b i).
Proof. unfold frame. cbn. repeat split; auto. Qed.

Lemma frame_SkipKinematicChk (b : bool) (i : Interaction) :
  frame i (SetBit_SkipKinematicChk b i).
Proof. unfold frame. cbn. repeat split; auto. Qed.

Section FrameOfTheSearch.

Context {RndState : Type}.
Variable ext : Externals RndState.
Variable g : RESKinematicsGenerator.

Lemma sample_frame (q : Q) (s : ScanState) :
  frame (scan_interaction s) (scan_interaction (snd (sample ext q s))).
Proof. cbn. apply frame_SetQ2. Qed.

Lemma backward_steps_frame (n : nat) : forall (Q2 d rmin : Q) (s : ScanState),
  frame (scan_interaction s) (scan_interaction (backward_steps ext n Q2 d rmin s)).
Proof.
  induction n as [|n IH]; intros Q2 d rmin s; cbn [backward_steps].
  - apply frame_refl.
  - set (q := TMath_Exp ext (TMath_Log ext Q2 - d)).
    destruct (Qlt_bool q rmin); [apply IH|].
    eapply frame_trans; [apply (sample_frame q s)|apply IH].
Qed.

Lemma Q2_scan_frame (n : nat) : forall (iq2 : Z) (l d rmin xl : Q) (s : ScanState),
  frame (scan_interaction s) (scan_interaction (Q2_scan ext n iq2 l d rmin xl s)).
Proof.
  induction n as [|n IH]; intros iq2 l d rmin xl s; cbn [Q2_scan].
  - apply frame_refl.
  - pose proof (sample_frame (TMath_Exp ext (l + inject_Z iq2 * d)) s) as Hs.
    destruct (sample ext (TMath_Exp ext (l + inject_Z iq2 * d)) s) as [xsec s1].
    cbn [snd] in Hs.
    destruct (negb _).
    + eapply frame_trans; [exact Hs|apply backward_steps_frame].
    + eapply frame_trans; [exact Hs|apply IH].
Qed.

Lemma ComputeMaxXSec_frame (i : Interaction) :
  frame i (snd (ComputeMaxXSec ext g i)).
Proof.
  unfold ComputeMaxXSec.
  destruct (Q2_degenerate ext _); cbn [snd].
  - apply frame_SetW.
  - eapply frame_trans; [apply frame_SetW|].
    unfold scan_grid.
    apply (Q2_scan_frame NQ2 0 _ _ _ _ (mkScan _ 0 [])).
Qed.

Lemma MaxXSec_frame (event : GHepRecord) :
  match MaxXSec ext g event with
  | MaxXSecValue _ event' | MaxXSecThrown _ event' =>
      frame (GetInteraction event) (GetInteraction event')
      /\ same_scalars event event'
      /\ EventFlags event' = EventFlags event
  end.
Proof.
  unfold MaxXSec.
  assert (H : frame (GetInteraction event)
                (snd (if Qlt_bool (GetProbeE (GetInteraction event)) (fEMin g)
                      then ComputeMaxXSec ext g (GetInteraction event)
                      else match FindMaxXSec ext (GetInteraction event) with
                           | Some v => (v, GetInteraction event)
                           | None => ComputeMaxXSec ext g (GetInteraction event)
                           end))).
  { destruct (Qlt_bool _ (fEMin g)); [apply ComputeMaxXSec_frame|].
    destruct (FindMaxXSec ext _); [apply frame_refl|apply ComputeMaxXSec_frame]. }
  destruct (if Qlt_bool _ (fEMin g) then _ else _) as [v i']. cbn [snd] in H.
  destruct (Qlt_bool 0 v);
    (split; [exact H|split; [unfold same_scalars; cbn; auto|reflexivity]]).
Qed.

End FrameOfTheSearch.

Ltac frame_goal :=
  unfold frame; cbn; repeat split; auto; discriminate.

Ltac frame_leaf :=
  lazymatch goal with
  | |- frame _ _ /\ same_scalars _ _ =>
      split; [frame_goal|unfold same_scalars; cbn; auto]
  | |- frame _ _ => frame_goal
  | |- committed _ => unfold committed; cbn; repeat split; auto; discriminate
  end.

Section FrameOfTheLoop.

Context {RndState : Type}.
Variable ext : Externals RndState.
Variable g : RESKinematicsGenerator.
Variables Wmin Wmax dW xsec_max : Q.

(** What one pass through the loop body does to the interaction. *)
Lemma iteration_frame (st : LoopState) :
  match iteration ext g Wmin Wmax dW xsec_max st with
  | Continue st' =>
      frame (GetInteraction (evrec st)) (GetInteraction (evrec st'))
      /\ same_scalars (evrec st) (evrec st')
  | Done (Returned st') => committed (GetKinematics (GetInteraction (evrec st')))
  | Done (Thrown _ st') | Done (AssertFailed st') | Done (XSecLimitsExceeded st') =>
      frame (GetInteraction (evrec st)) (GetInteraction (evrec st'))
  end.
Proof.
  unfold iteration. cbn [iter set_iter].
  destruct (kRjMaxIterations ext <? _)%Z; [frame_leaf|].
  destruct (fGenerateUniformly g) eqn:Hmode.
  - unfold generate_uniform. cbn [rnd evrec set_iter].
    destruct (Rndm ext (rnd st)) as [u r].
    destruct (no_phase_space _); [frame_leaf|].
    destruct (Rndm ext r) as [u' r'].
    unfold try_kinematics. rewrite Hmode. cbn [negb].
    destruct (Qlt_bool 0 _); [|frame_leaf].
    unfold accept_kinematics. rewrite Hmode.
    destruct (WQ2toXY ext _ _ _ _) as [gx gy]. frame_leaf.
  - unfold generate_importance. cbn [iter set_iter].
    destruct (_ =? 1)%Z.
    + unfold init_envelope. cbn [evrec set_iter GetInteraction].
      destruct (GetExclusiveTag _) as [res|]; cbn [GetExclusiveTag SetW with_kine].
      * destruct (GetRandom2 ext _ _) as [[gQD2 gW] r].
        unfold try_kinematics. rewrite Hmode. cbn [negb].
        destruct (Rndm ext _) as [u r'].
        destruct (AssertXSecLimits g _ _); [|frame_leaf].
        destruct (Qlt_bool _ _); [|frame_leaf].
        unfold accept_kinematics. rewrite Hmode.
        destruct (WQ2toXY ext _ _ _ _) as [gx gy]. frame_leaf.
      * destruct (GetRandom2 ext _ _) as [[gQD2 gW] r].
        unfold try_kinematics. rewrite Hmode. cbn [negb].
        destruct (Rndm ext _) as [u r'].
        destruct (AssertXSecLimits g _ _); [|frame_leaf].
        destruct (Qlt_bool _ _); [|frame_leaf].
        unfold accept_kinematics. rewrite Hmode.
        destruct (WQ2toXY ext _ _ _ _) as [gx gy]. frame_leaf.
    + destruct (GetRandom2 ext _ _) as [[gQD2 gW] r].
      unfold try_kinematics. rewrite Hmode. cbn [negb].
      destruct (Rndm ext _) as [u r'].
      destruct (AssertXSecLimits g _ _); [|frame_leaf].
      destruct (Qlt_bool _ _); [|frame_leaf].
      unfold accept_kinematics. rewrite Hmode.
      destruct (WQ2toXY ext _ _ _ _) as [gx gy]. frame_leaf.
Qed.

Lemma rejection_loop_frame (fuel : nat) : forall (i0 : Interaction) (st : LoopState) o,
  frame i0 (GetInteraction (evrec st)) ->
  rejection_loop ext g fuel Wmin Wmax dW xsec_max st = Some o ->
  outcome_frame i0 o.
Proof.
  induction fuel as [|fuel IH]; intros i0 st o Hf Hrun; [discriminate|].
  cbn [rejection_loop] in Hrun.
  pose proof (iteration_frame st) as Hstep.
  destruct (iteration ext g Wmin Wmax dW xsec_max st) as [st'|o'].
  - destruct Hstep as [Hstep _].
    apply (IH i0 st' o); [|exact Hrun].
    exact (frame_trans _ _ _ Hf Hstep).
  - injection Hrun as <-.
    destruct o' as [st'|x st'|st'|st']; cbn [outcome_frame];
      first [exact Hstep | exact (frame_trans _ _ _ Hf Hstep)].
Qed.

Lemma rejection_loop_thrown (fuel : nat) : forall (st : LoopState) x st',
  rejection_loop ext g fuel Wmin Wmax dW xsec_max st = Some (Thrown x st') ->
  x = exhausted_exception.
Proof.
  induction fuel as [|fuel IH]; intros st x st' Hrun; [discriminate|].
  cbn [rejection_loop] in Hrun.
  destruct (iteration_cases ext g Wmin Wmax dW xsec_max st)
    as [[_ Hstep]|[_ [[st1 [Hstep _]]|[[st1 Hstep]|[st1 Hstep]]]]];
    rewrite Hstep in Hrun.
  - now injection Hrun as <- _.
  - exact (IH st1 x st' Hrun).
  - discriminate.
  - discriminate.
Qed.

End FrameOfTheLoop.

Lemma ProcessEventRecord_frame
    {RndState : Type} (ext : Externals RndState) (g : RESKinematicsGenerator)
    (fuel : nat) (event : GHepRecord) (r : RndState) (o : Outcome) :
  ProcessEventRecord ext g fuel event r = Some o ->
  outcome_frame (GetInteraction event) o.
Proof.
  unfold ProcessEventRecord.
  destruct (W_assertion _); cbn [negb].
  2:{ intro H. injection H as <-. cbn. apply frame_SkipProcessChk. }
  destruct (no_phase_space _).
  { intro H. injection H as <-. cbn. apply frame_SkipProcessChk. }
  destruct (fGenerateUniformly g).
  - intro H.
    apply (rejection_loop_frame ext g _ _ _ _ fuel (GetInteraction event) _ o) in H;
      [exact H|].
    cbn. apply frame_SkipProcessChk.
  - pose proof (MaxXSec_frame ext g
                  (SetInteraction (SetBit_SkipProcessChk true (GetInteraction event)) event))
      as HM.
    destruct (MaxXSec ext g _) as [v event'|x event']; destruct HM as [HM _];
      cbn [GetInteraction SetInteraction] in HM.
    + intro H.
      apply (rejection_loop_frame ext g _ _ _ _ fuel (GetInteraction event) _ o) in H;
        [exact H|].
      cbn. exact (frame_trans _ _ _ (frame_SkipProcessChk true _) HM).
    + intro H. injection H as <-. cbn.
      exact (frame_trans _ _ _ (frame_SkipProcessChk true _) HM).
Qed.

(** With fuel for [kRjMaxIterations + 1] entries of the loop body, the
    call always ends. *)
Lemma ProcessEventRecord_ends
    {RndState : Type} (ext : Externals RndState) (g : RESKinematicsGenerator)
    (event : GHepRecord) (r : RndState) :
  (0 <= kRjMaxIterations ext < 2 ^ 32 - 1)%Z ->
  exists o,
    ProcessEventRecord ext g (S (Z.to_nat (kRjMaxIterations ext))) event r = Some o.
Proof.
  intro HN. unfold ProcessEventRecord.
  destruct (W_assertion _); cbn [negb]; [|eauto].
  destruct (no_phase_space _); [eauto|].
  destruct (if fGenerateUniformly g then _ else _) as [v event'|x event']; [|eauto].
  apply (loop_leaves ext g _ _ _ _ HN); cbn [iter set_evrec]; lia.
Qed.

(** C7.  When [ProcessEventRecord] returns normally the four kinematic
    values (W, Q2, x, y) are locked and no running value is left.  On
    every other way out (an exception thrown, a failed assertion, the
    cross-section-limit stop) the locked values of the interaction are
    exactly those it had on entry, so none is locked by the failed
    selection, and the running values have not been cleared: running x
    and y are untouched, running W and Q2 are still set if they
    were. *)
Theorem C7_kinematics_locked_only_on_acceptance
    {RndState : Type} (ext : Externals RndState) (g : RESKinematicsGenerator)
    (fuel : nat) (event : GHepRecord) (r : RndState) (o : Outcome) :
  ProcessEventRecord ext g fuel event r = Some o ->
  let k0 := GetKinematics (GetInteraction event) in
  match o with
  | Returned st =>
      let k := GetKinematics (GetInteraction (evrec st)) in
      sel_W k <> None /\ sel_Q2 k <> None /\ sel_x k <> None /\ sel_y k <> None
      /\ run_W k = None /\ run_Q2 k = None /\ run_x k = None /\ run_y k = None
  | Thrown _ st | AssertFailed st | XSecLimitsExceeded st =>
      let k := GetKinematics (GetInteraction (evrec st)) in
      locked k = locked k0
      /\ run_x k = run_x k0 /\ run_y k = run_y k0
      /\ (run_W k0 <> None -> run_W k <> None)
      /\ (run_Q2 k0 <> None -> run_Q2 k <> None)
  end.
Proof.
  intro H. apply ProcessEventRecord_frame in H. cbv zeta.
  destruct o as [st|x st|st|st]; cbn [outcome_frame] in H;
    first [ exact H
          | destruct H as (_ & _ & _ & Hl & Hx & Hy & HW & HQ2);
            repeat split; assumption ].
Qed.

Lemma C7_kinematics_witness :
  let ext := Toy.world (mkRange1D 1 2) (fun _ => mkRange1D 0.1 2) (fun _ => 0) 3 None in
  let g := Toy.generator [] true in
  exists x st,
    ProcessEventRecord ext g 4 Toy.event0 [0.5; 0.25] = Some (Thrown x st)
    /\ locked (GetKinematics (GetInteraction (evrec st)))
       = locked (GetKinematics (GetInteraction Toy.event0)).
Proof.
  cbv zeta. eexists. eexists. split.
  - vm_compute. reflexivity.
  - exact (proj1 (C7_kinematics_locked_only_on_acceptance
                    (Toy.world (mkRange1D 1 2) (fun _ => mkRange1D 0.1 2) (fun _ => 0) 3 None)
                    (Toy.generator [] true) 4 Toy.event0 [0.5; 0.25] _ eq_refl)).
Defined.

(** ** The empty W range *)

(** C10.  The assertion [W.min >= 0 && W.min < W.max] is evaluated
    before the test [W.max <= 0 || W.min >= W.max]: a range that passes
    the assertion is never found empty by the test, an empty range
    fails the assertion and aborts, and no call ends with the
    "No available phase space" exception. *)
Theorem C10_empty_W_range_trips_the_assertion
    {RndState : Type} (ext : Externals RndState) (g : RESKinematicsGenerator)
    (fuel : nat) (event : GHepRecord) (r : RndState) :
  let entry := SetInteraction (SetBit_SkipProcessChk true (GetInteraction event)) event in
  let W := WRange ext g (GetInteraction entry) in
  (W_assertion W = true -> no_phase_space W = false)
  /\ (no_phase_space W = true ->
      ProcessEventRecord ext g fuel event r
      = Some (AssertFailed (mkLoop 0 entry (fEnvelope g) r)))
  /\ (forall st, ProcessEventRecord ext g fuel event r
                 <> Some (Thrown no_phase_space_exception st)).
Proof.
  cbv zeta. cbn [GetInteraction SetInteraction].
  split; [apply W_assertion_excludes_empty|]. split.
  - intro He. apply empty_fails_W_assertion in He.
    unfold ProcessEventRecord. now rewrite He.
  - intros st. unfold ProcessEventRecord.
    destruct (W_assertion _) eqn:Ea; cbn [negb]; [|discriminate].
    rewrite (W_assertion_excludes_empty _ Ea).
    destruct (fGenerateUniformly g).
    + intro H. apply rejection_loop_thrown in H. discriminate H.
    + destruct (MaxXSec ext g _) as [v event'|x event'] eqn:EM.
      * intro H. apply rejection_loop_thrown in H. discriminate H.
      * intro H. injection H as Hx _. subst x.
        unfold MaxXSec in EM.
        destruct (if Qlt_bool _ (fEMin g) then _ else _) as [v i'].
        destruct (Qlt_bool 0 v); discriminate EM.
Qed.

Lemma C10_empty_W_range_witness :
  let ext := Toy.world (mkRange1D 1 2) (fun _ => mkRange1D 0.1 2) (fun _ => 1) 3 None in
  let cut := Toy.generator [("W-min"%string, 3); ("W-max"%string, 4)] true in
  let g := Toy.generator [] true in
  let entry := SetInteraction (SetBit_SkipProcessChk true Toy.interaction0) Toy.event0 in
  ProcessEventRecord ext cut 5 Toy.event0 [0.5]
  = Some (AssertFailed (mkLoop 0 entry (fEnvelope cut) [0.5]))
  /\ no_phase_space (WRange ext g (GetInteraction entry)) = false.
Proof.
  cbv zeta. split.
  - apply (C10_empty_W_range_trips_the_assertion
             (Toy.world (mkRange1D 1 2) (fun _ => mkRange1D 0.1 2) (fun _ => 1) 3 None)
             (Toy.generator [("W-min"%string, 3); ("W-max"%string, 4)] true)
             5 Toy.event0 [0.5]).
    reflexivity.
  - apply (C10_empty_W_range_trips_the_assertion
             (Toy.world (mkRange1D 1 2) (fun _ => mkRange1D 0.1 2) (fun _ => 1) 3 None)
             (Toy.generator [] true) 5 Toy.event0 [0.5]).
    reflexivity.
Defined.

Lemma clamp_above (v lo hi : Q) : hi < v -> lo <= hi -> clamp v lo hi = hi.
Proof.
  intros Hv Hlo. unfold clamp, TMath_Max, TMath_Min.
  assert (H1 : Qle_bool lo v = true).
  { apply Qle_bool_iff. apply Qlt_le_weak. exact (Qle_lt_trans _ _ _ Hlo Hv). }
  rewrite H1.
  assert (H2 : Qle_bool v hi = false).
  { apply Qlt_bool_false_iff in Hlo. apply Qlt_bool_iff in Hv.
    unfold Qlt_bool in Hv. now apply negb_true_iff in Hv. }
  now rewrite H2.
Qed.

Lemma clamp_below (v lo hi : Q) : v < lo -> lo <= hi -> clamp v lo hi = lo.
Proof.
  intros Hv Hlo. unfold clamp, TMath_Max, TMath_Min.
  assert (H1 : Qle_bool lo v = false).
  { apply Qlt_bool_iff in Hv. unfold Qlt_bool in Hv. now apply negb_true_iff in Hv. }
  rewrite H1.
  assert (H2 : Qle_bool lo hi = true) by now apply Qle_bool_iff.
  now rewrite H2.
Qed.

(** A cut range that lies entirely above, or entirely below, a
    non-empty physical W range leaves an empty W range, on which
    [ProcessEventRecord] stops at its assertion. *)
Lemma cut_range_outside_aborts
    {RndState : Type} (ext : Externals RndState) (g : RESKinematicsGenerator)
    (fuel : nat) (event : GHepRecord) (r : RndState) :
  let entry := SetInteraction (SetBit_SkipProcessChk true (GetInteraction event)) event in
  let phys := KineRange ext (GetInteraction entry) kKVW in
  min phys <= max phys ->
  max phys < fWmin g \/ (fWmin g < min phys /\ fWmax g < min phys) ->
  no_phase_space (WRange ext g (GetInteraction entry)) = true
  /\ ProcessEventRecord ext g fuel event r
     = Some (AssertFailed (mkLoop 0 entry (fEnvelope g) r)).
Proof.
  cbv zeta. cbn [GetInteraction SetInteraction]. intros Hphys Hout.
  assert (He : no_phase_space
                 (WRange ext g (SetBit_SkipProcessChk true (GetInteraction event))) = true).
  { unfold no_phase_space, WRange, ApplyCutsToKineLimits. cbn [min max].
    apply orb_true_iff. right. apply Qle_bool_iff.
    destruct Hout as [Habove|[Hmin Hmax]].
    - rewrite (clamp_above _ _ _ Habove Hphys).
      eapply Qle_trans; [apply TMath_Min_le_r|].
      unfold clamp. apply TMath_Min_le_r.
    - rewrite (clamp_below _ _ _ Hmin Hphys), (clamp_below _ _ _ Hmax Hphys).
      apply TMath_Min_le_r. }
  split; [exact He|].
  unfold ProcessEventRecord. now rewrite (empty_fails_W_assertion _ He).
Qed.

(** C5.  Physical W range [1, 2], user cuts W-min = 3 and W-max = 4
    (entirely outside it), Wcut = 10: the W range after cuts is the
    empty range [2, 2], and [ProcessEventRecord] stops on the failed
    assertion, with no event flag set and no exception thrown, whatever
    the fuel and the random numbers. *)
Theorem C5_cuts_outside_physical_range_abort (fuel : nat) (r : Toy.RndState) :
  let ext := Toy.world (mkRange1D 1 2) (fun _ => mkRange1D 0.1 2) (fun _ => 1) 1000 None in
  let g := Toy.generator
             [("W-min"%string, 3); ("W-max"%string, 4); ("Wcut"%string, 10)] true in
  let entry := SetInteraction (SetBit_SkipProcessChk true Toy.interaction0) Toy.event0 in
  WRange ext g (GetInteraction entry) = mkRange1D 2 2
  /\ ProcessEventRecord ext g fuel Toy.event0 r
     = Some (AssertFailed (mkLoop 0 entry (fEnvelope g) r))
  /\ EventFlags entry = [].
Proof.
  cbv zeta. split; [reflexivity|]. split; reflexivity.
Qed.

(** ** Uniform mode *)

Lemma frame_trial_point (i0 i : Interaction) (gW gQ2 : Q) :
  frame i0 i -> kISkipProcessChk i = true ->
  SetQ2 gQ2 false (SetW gW false (SetBit_SkipKinematicChk true i))
  = trial_point i0 gW gQ2.
Proof.
  destruct i as [E M t [rw rq rx ry sw sq sx sy] b1 b2].
  destruct i0 as [E0 M0 t0 [rw0 rq0 rx0 ry0 sw0 sq0 sx0 sy0] b10 b20].
  unfold frame, locked. cbn.
  intros (HE & HM & Ht & Hl & Hx & Hy & _ & _) Hb.
  injection Hl as -> -> -> ->. subst. reflexivity.
Qed.

Section UniformMode.

Context {RndState : Type}.
Variable ext : Externals RndState.
Variable g : RESKinematicsGenerator.
Variables Wmin Wmax dW xsec_max : Q.
Variable event : GHepRecord.

Hypothesis uniform : fGenerateUniformly g = true.

Lemma iteration_uniform (st : LoopState) :
  uniform_inv event st ->
  match iteration ext g Wmin Wmax dW xsec_max st with
  | Continue st' => uniform_inv event st'
  | Done (Returned st') => uniform_result ext event st'
  | Done _ => True
  end.
Proof.
  intros (Hf & Hb & HX & HD & HW).
  unfold iteration. cbn [iter set_iter].
  destruct (kRjMaxIterations ext <? _)%Z; [exact I|].
  rewrite uniform.
  unfold generate_uniform. cbn [rnd evrec set_iter].
  destruct (Rndm ext (rnd st)) as [u r].
  destruct (no_phase_space _).
  { unfold uniform_inv. cbn [set_rnd set_iter evrec].
    split; [exact Hf|]. split; [exact Hb|]. repeat split; assumption. }
  destruct (Rndm ext r) as [u' r'].
  set (gW := Wmin + dW * u).
  set (gQ2 := min (Q2Range ext g (GetInteraction (evrec st)))
              + (max (Q2Range ext g (GetInteraction (evrec st)))
                 - min (Q2Range ext g (GetInteraction (evrec st)))) * u').
  unfold try_kinematics. rewrite uniform. cbn [negb].
  cbn [set_interaction set_evrec set_rnd evrec GetInteraction SetInteraction].
  rewrite (frame_trial_point (GetInteraction event) _ gW gQ2 Hf Hb).
  destruct (Qlt_bool 0 _).
  - unfold accept_kinematics. rewrite uniform.
    cbn [set_interaction set_evrec set_rnd evrec GetInteraction SetInteraction].
    destruct (WQ2toXY ext _ _ _ _) as [gx gy].
    exists gW, gQ2. cbn. rewrite HX, HW.
    repeat split; reflexivity.
  - unfold uniform_inv. cbn. split; [|split].
    + unfold trial_point.
      eapply frame_trans; [apply (frame_SkipProcessChk true)|].
      eapply frame_trans; [apply (frame_SkipKinematicChk true)|].
      eapply frame_trans; [apply frame_SetW|apply frame_SetQ2].
    + reflexivity.
    + repeat split; assumption.
Qed.

Lemma rejection_loop_uniform (fuel : nat) : forall (st st' : LoopState),
  uniform_inv event st ->
  rejection_loop ext g fuel Wmin Wmax dW xsec_max st = Some (Returned st') ->
  uniform_result ext event st'.
Proof.
  induction fuel as [|fuel IH]; intros st st' Hinv Hrun; [discriminate|].
  cbn [rejection_loop] in Hrun.
  pose proof (iteration_uniform st Hinv) as Hstep.
  destruct (iteration ext g Wmin Wmax dW xsec_max st) as [st1|o].
  - exact (IH st1 st' Hstep Hrun).
  - injection Hrun as ->. exact Hstep.
Qed.

End UniformMode.

(** C6.  When a uniform-mode selection returns, with [gW] and [gQ2] the
    accepted (now locked) W and Q2: the differential cross section
    stored in the event is the one computed at the accepted point, and
    the weight stored is
    (phase-space volume at acceptance / total cross section of the
    event) * accepted differential cross section * weight the event had
    on entry.  (Exact arithmetic: a zero total cross section is outside
    what this equation says about the C++ doubles.) *)
Theorem C6_uniform_event_weight
    {RndState : Type} (ext : Externals RndState) (g : RESKinematicsGenerator)
    (fuel : nat) (event : GHepRecord) (r : RndState) (st : LoopState) :
  fGenerateUniformly g = true ->
  ProcessEventRecord ext g fuel event r = Some (Returned st) ->
  exists gW gQ2,
    sel_W (GetKinematics (GetInteraction (evrec st))) = Some gW
    /\ sel_Q2 (GetKinematics (GetInteraction (evrec st))) = Some gQ2
    /\ GetDiffXSec (evrec st)
       = XSec ext (trial_point (GetInteraction event) gW gQ2) kPSWQ2fE
    /\ GetWeight (evrec st)
       = PhaseSpaceVolume ext (acceptance_point (GetInteraction event) gW gQ2) kPSWQ2fE
         / GetXSec event
         * GetDiffXSec (evrec st) * GetWeight event.
Proof.
  intros Hmode. unfold ProcessEventRecord.
  destruct (W_assertion _); cbn [negb]; [|discriminate].
  destruct (no_phase_space _); [discriminate|].
  rewrite Hmode. intro Hrun.
  refine (rejection_loop_uniform ext g _ _ _ _ event Hmode fuel _ st _ Hrun).
  unfold uniform_inv. cbn. split; [|split].
  - apply frame_SkipProcessChk.
  - reflexivity.
  - repeat split; reflexivity.
Qed.

Lemma C6_uniform_event_weight_witness :
  let ext := Toy.world (mkRange1D 1 2) (fun _ => mkRange1D 0.1 2) (fun _ => 1) 3 None in
  let g := Toy.generator [] true in
  exists st gW gQ2,
    ProcessEventRecord ext g 1 Toy.event0 [0.5; 0.5] = Some (Returned st)
    /\ GetWeight (evrec st)
       = PhaseSpaceVolume ext (acceptance_point Toy.interaction0 gW gQ2) kPSWQ2fE
         / GetXSec Toy.event0
         * GetDiffXSec (evrec st) * GetWeight Toy.event0
    /\ GetWeight (evrec st) == 0.2.
Proof.
  cbv zeta.
  destruct (ProcessEventRecord
              (Toy.world (mkRange1D 1 2) (fun _ => mkRange1D 0.1 2) (fun _ => 1) 3 None)
              (Toy.generator [] true) 1 Toy.event0 [0.5; 0.5])
    as [[st| | |]|] eqn:Erun; try (vm_compute in Erun; discriminate Erun).
  destruct (C6_uniform_event_weight
              (Toy.world (mkRange1D 1 2) (fun _ => mkRange1D 0.1 2) (fun _ => 1) 3 None)
              (Toy.generator [] true) 1 Toy.event0 [0.5; 0.5] st eq_refl Erun)
    as [gW [gQ2 [_ [_ [_ Hw]]]]].
  exists st, gW, gQ2. split; [reflexivity|]. split; [exact Hw|].
  vm_compute in Erun. injection Erun as <-. reflexivity.
Defined.

(** C3.  In uniform mode the loop body draws W first, as
    [Wmin + dW * u]; it then takes the Q2 range of the interaction as
    it stands, before the drawn W is stored in it ([SetW(gW)] comes
    later, with the trial), skips the pass when that range is empty and
    otherwise draws Q2 uniformly across that range.  So the Q2 bounds
    are those of the running W left in the interaction, not of the W
    just drawn.  Example: the interaction arrives with a running W of
    1 and the physical Q2 range at running W = w is [0.1, 3 - w]; the
    first pass draws W = 1.6299992, uses the range [0.1, 2] of W = 1,
    draws Q2 = 1.81 and accepts the pair, although the Q2 range for the
    W just drawn is [0.1, 1.3700008]. *)
Theorem C3_uniform_Q2_bounds_ignore_drawn_W :
  (forall (RndState : Type) (ext : Externals RndState)
          (g : RESKinematicsGenerator) (Wmin dW : Q) (st : LoopState),
     let Q2 := Q2Range ext g (GetInteraction (evrec st)) in
     let u := fst (Rndm ext (rnd st)) in
     let u' := fst (Rndm ext (snd (Rndm ext (rnd st)))) in
     match generate_uniform ext g Wmin dW st with
     | Skipped st' =>
         no_phase_space Q2 = true
         /\ GetInteraction (evrec st') = GetInteraction (evrec st)
     | Candidate gW gQ2 _ st' =>
         no_phase_space Q2 = false
         /\ gW = Wmin + dW * u
         /\ gQ2 = min Q2 + (max Q2 - min Q2) * u'
         /\ run_W (GetKinematics (GetInteraction (evrec st')))
            = run_W (GetKinematics (GetInteraction (evrec st)))
     end)
  /\ (let ext := Toy.world (mkRange1D 1 2) Toy.Q2_for_W (fun _ => 1) 1000 None in
      let g := Toy.generator [] true in
      let i := SetBit_SkipProcessChk true Toy.interaction1 in
      exists st gW gQ2,
        ProcessEventRecord ext g 1 Toy.event1 [0.9; 0.9] = Some (Returned st)
        /\ sel_W (GetKinematics (GetInteraction (evrec st))) = Some gW
        /\ sel_Q2 (GetKinematics (GetInteraction (evrec st))) = Some gQ2
        /\ gW == 1.6299992 /\ gQ2 == 1.81
        /\ Q2Range ext g i = mkRange1D 0.1 2
        /\ gQ2 = min (Q2Range ext g i)
                 + (max (Q2Range ext g i) - min (Q2Range ext g i)) * 0.9
        /\ Q2Range ext g (SetW gW false i) = mkRange1D 0.1 (3 - gW)
        /\ max (Q2Range ext g (SetW gW false i)) < gQ2).
Proof.
  split.
  - intros RndState ext g Wmin dW st. cbv zeta. unfold generate_uniform.
    destruct (Rndm ext (rnd st)) as [u r]. cbn [fst snd].
    destruct (no_phase_space _) eqn:E.
    + split; reflexivity.
    + destruct (Rndm ext r) as [u' r']. cbn [fst].
      repeat split; reflexivity.
  - cbv zeta. eexists. eexists. eexists.
    split; [vm_compute; reflexivity|].
    split; [reflexivity|]. split; [reflexivity|].
    split; [reflexivity|]. split; [reflexivity|].
    split; [reflexivity|]. split; [reflexivity|].
    split; [reflexivity|].
    apply Qlt_bool_iff. vm_compute. reflexivity.
Qed.

(** * Further properties of the search and of the selection *)

(** ** The value and the cost of [ComputeMaxXSec] *)

Lemma fold_max_bounds (l : list (Q * Q)) : forall m : Q,
  m <= fold_left (fun m e => TMath_Max (snd e) m) l m
  /\ (forall e, In e l -> snd e <= fold_left (fun m e => TMath_Max (snd e) m) l m).
Proof.
  induction l as [|e0 l IH]; intro m; cbn [fold_left].
  - split; [apply Qle_refl|]. intros e [].
  - destruct (IH (TMath_Max (snd e0) m)) as [Hm Hin]. split.
    + eapply Qle_trans; [apply TMath_Max_ge_r|exact Hm].
    + intros e [<-|He].
      * eapply Qle_trans; [apply TMath_Max_ge_l|exact Hm].
      * exact (Hin e He).
Qed.

Lemma running_max_nonneg (l : list (Q * Q)) : 0 <= running_max l.
Proof. exact (proj1 (fold_max_bounds l 0)). Qed.

Lemma running_max_dominates (l : list (Q * Q)) (e : Q * Q) :
  In e l -> snd e <= running_max l.
Proof. exact (proj2 (fold_max_bounds l 0) e). Qed.

Lemma scan_grid_tracked {RndState : Type} (ext : Externals RndState)
    (i : Interaction) (rQ2 : Range1D_t) :
  max_xsec (scan_grid ext i rQ2) = running_max (scan_log (scan_grid ext i rQ2)).
Proof.
  assert (Hb : based i (mkScan i 0 [])) by (intro q; reflexivity).
  assert (Ht : tracked (mkScan i 0 [])) by reflexivity.
  exact (scan_tracked ext i rQ2 NQ2 0 (-1) _ Hb Ht).
Qed.

Lemma safety_factor_cases (g : RESKinematicsGenerator) (E : Q) :
  safety_factor g E = 2 \/ safety_factor g E = fSafetyFactor g.
Proof. unfold safety_factor. destruct (Qlt_bool E 0.8); auto. Qed.

(** X1.  The maximum returned by the search is never negative when the
    configured safety factor is not: the running maximum starts from 0
    and only grows, and the early exit on a rejected Q2 range returns
    0. *)
Theorem ComputeMaxXSec_nonneg
    {RndState : Type} (ext : Externals RndState)
    (g : RESKinematicsGenerator) (i : Interaction) :
  0 <= fSafetyFactor g ->
  0 <= fst (ComputeMaxXSec ext g i)
  /\ (Q2_degenerate ext (Q2Range ext g (SetW (scan_W ext g i) false i)) = true ->
      fst (ComputeMaxXSec ext g i) = 0).
Proof.
  intro Hf. unfold ComputeMaxXSec.
  destruct (Q2_degenerate ext _); cbn [fst].
  - split; [apply Qle_refl|reflexivity].
  - split; [|discriminate].
    rewrite scan_grid_tracked.
    pose proof (running_max_nonneg
                  (scan_log (scan_grid ext (SetW (scan_W ext g i) false i)
                               (Q2Range ext g (SetW (scan_W ext g i) false i))))) as Hm.
    destruct (safety_factor_cases g (GetProbeE i)) as [-> | ->]; nra.
Qed.

Lemma ComputeMaxXSec_nonneg_witness :
  let ext := Toy.world (mkRange1D 1 2) (fun _ => mkRange1D 1 15) Toy.peak 3 None in
  0 <= fst (ComputeMaxXSec ext (Toy.generator [] false) Toy.interaction0).
Proof.
  cbv zeta.
  apply (ComputeMaxXSec_nonneg
           (Toy.world (mkRange1D 1 2) (fun _ => mkRange1D 1 15) Toy.peak 3 None)
           (Toy.generator [] false) Toy.interaction0).
  apply Qle_bool_iff. vm_compute. reflexivity.
Defined.

(** X2.  With a safety factor of at least 1 (the fixed factor 2 always is),
    the value returned by the search is at least every cross section
    it evaluated, on the coarse grid and in the refined sub-scan. *)
Theorem ComputeMaxXSec_dominates_samples
    {RndState : Type} (ext : Externals RndState)
    (g : RESKinematicsGenerator) (i : Interaction) (Q2 xsec : Q) :
  let i' := SetW (scan_W ext g i) false i in
  let rQ2 := Q2Range ext g i' in
  1 <= fSafetyFactor g ->
  Q2_degenerate ext rQ2 = false ->
  In (Q2, xsec) (scan_log (scan_grid ext i' rQ2)) ->
  xsec <= fst (ComputeMaxXSec ext g i).
Proof.
  cbv zeta. intros Hf Hd Hin. unfold ComputeMaxXSec. rewrite Hd. cbn [fst].
  rewrite scan_grid_tracked.
  pose proof (running_max_nonneg
                (scan_log (scan_grid ext (SetW (scan_W ext g i) false i)
                             (Q2Range ext g (SetW (scan_W ext g i) false i))))) as Hm.
  pose proof (running_max_dominates _ _ Hin) as Hx. cbn [snd] in Hx.
  destruct (safety_factor_cases g (GetProbeE i)) as [-> | ->]; nra.
Qed.

Lemma ComputeMaxXSec_dominates_witness :
  let ext := Toy.world (mkRange1D 1 2) (fun _ => mkRange1D 1 15) Toy.peak 3 None in
  let g := Toy.generator [] false in
  let i' := SetW (scan_W ext g Toy.interaction0) false Toy.interaction0 in
  xsec_at ext i' (grid_Q2 ext (mkRange1D 1 15) 0)
  <= fst (ComputeMaxXSec ext g Toy.interaction0).
Proof.
  cbv zeta.
  apply (ComputeMaxXSec_dominates_samples
           (Toy.world (mkRange1D 1 2) (fun _ => mkRange1D 1 15) Toy.peak 3 None)
           (Toy.generator [] false) Toy.interaction0
           (grid_Q2 (Toy.world (mkRange1D 1 2) (fun _ => mkRange1D 1 15) Toy.peak 3 None)
                    (mkRange1D 1 15) 0)).
  - apply Qle_bool_iff. vm_compute. reflexivity.
  - vm_compute. reflexivity.
  - vm_compute. left. reflexivity.
Defined.

Section ScanCost.

Context {RndState : Type}.
Variable ext : Externals RndState.

Lemma sample_log_length (q : Q) (s : ScanState) :
  List.length (scan_log (snd (sample ext q s))) = S (List.length (scan_log s)).
Proof. cbn. rewrite length_app. cbn. lia. Qed.

Lemma backward_steps_length (n : nat) : forall (Q2 d rmin : Q) (s : ScanState),
  (List.length (scan_log s)
   <= List.length (scan_log (backward_steps ext n Q2 d rmin s))
   <= List.length (scan_log s) + n)%nat.
Proof.
  induction n as [|n IH]; intros Q2 d rmin s; cbn [backward_steps].
  - lia.
  - set (q := TMath_Exp ext (TMath_Log ext Q2 - d)).
    destruct (Qlt_bool q rmin).
    + specialize (IH q d rmin s). lia.
    + specialize (IH q d rmin (snd (sample ext q s))).
      rewrite sample_log_length in IH. lia.
Qed.

Lemma Q2_scan_length (n : nat) : forall (iq2 : Z) (l d rmin xl : Q) (s : ScanState),
  (List.length (scan_log s) + Nat.min 1 n
   <= List.length (scan_log (Q2_scan ext n iq2 l d rmin xl s))
   <= List.length (scan_log s) + n + kNQ2b)%nat.
Proof.
  induction n as [|n IH]; intros iq2 l d rmin xl s; cbn [Q2_scan].
  - cbn. lia.
  - pose proof (sample_log_length (TMath_Exp ext (l + inject_Z iq2 * d)) s) as Hs.
    destruct (sample ext (TMath_Exp ext (l + inject_Z iq2 * d)) s) as [xsec s1].
    cbn [snd] in Hs.
    destruct (negb _).
    + pose proof (backward_steps_length kNQ2b
                    (TMath_Exp ext (l + inject_Z iq2 * d))
                    (d / inject_Z (Z.of_nat kNQ2b)) rmin s1) as Hb.
      cbn [Nat.min]. lia.
    + specialize (IH (iq2 + 1)%Z l d rmin xsec s1). cbn [Nat.min]. lia.
Qed.

End ScanCost.

(** X3.  The scan over Q2 evaluates the cross section at least once and at
    most [NQ2 + kNQ2b = 18] times, whatever the cross-section model
    returns. *)
Theorem scan_grid_cost
    {RndState : Type} (ext : Externals RndState)
    (i : Interaction) (rQ2 : Range1D_t) :
  (1 <= List.length (scan_log (scan_grid ext i rQ2)) <= 18)%nat.
Proof.
  unfold scan_grid.
  pose proof (Q2_scan_length ext NQ2 0 (logQ2min ext rQ2) (dlogQ2 ext rQ2)
                (min rQ2) (-1) (mkScan i 0 [])) as H.
  set (len := List.length (scan_log (Q2_scan ext NQ2 0 (logQ2min ext rQ2)
                                       (dlogQ2 ext rQ2) (min rQ2) (-1)
                                       (mkScan i 0 [])))) in *.
  unfold NQ2, kNQ2b in H. cbn in H. lia.
Qed.

(** X4.  The W at which the search scans, for a W range that is at least
    [kASmallNum] wide: it is the resonance mass (1.23 when the
    interaction names no resonance) when that mass is within the limits
    of the range; the upper end of the range moved inwards by
    [kASmallNum] when the mass is above the range; the lower end moved
    inwards by [kASmallNum] when the mass is below it.  In every case
    it lies in the W range. *)
Theorem scan_W_in_WRange
    {RndState : Type} (ext : Externals RndState)
    (g : RESKinematicsGenerator) (i : Interaction) :
  let rW := WRange ext g i in
  let md := match GetExclusiveTag i with
            | Some res => res_Mass ext res
            | None => 1.23
            end in
  0 <= kASmallNum ext ->
  kASmallNum ext <= max rW - min rW ->
  (min rW <= md /\ md <= max rW -> scan_W ext g i = md)
  /\ (max rW < md -> scan_W ext g i = max rW - kASmallNum ext)
  /\ (md < min rW -> scan_W ext g i = min rW + kASmallNum ext)
  /\ min rW <= scan_W ext g i <= max rW.
Proof.
  cbv zeta. intros He Hw. unfold scan_W.
  set (md := match GetExclusiveTag i with
             | Some res => res_Mass ext res
             | None => 1.23
             end).
  set (rW := WRange ext g i) in *.
  unfold IsWithinLimits.
  destruct (Qle_bool (min rW) md) eqn:E1; cbn [andb].
  - apply Qle_bool_iff in E1.
    destruct (Qle_bool md (max rW)) eqn:E2.
    + apply Qle_bool_iff in E2.
      split; [reflexivity|]. split; [intro; lra|]. split; [intro; lra|].
      split; assumption.
    + apply Qle_bool_false in E2.
      destruct (Qle_bool (max rW) md) eqn:E3.
      * split; [intros [_ H]; lra|]. split; [reflexivity|].
        split; [intro; lra|]. split; lra.
      * apply Qle_bool_false in E3. lra.
  - apply Qle_bool_false in E1.
    destruct (Qle_bool (max rW) md) eqn:E3.
    + apply Qle_bool_iff in E3. lra.
    + split; [intros [H _]; lra|]. split; [intro; lra|].
      split; [reflexivity|]. split; lra.
Qed.

Lemma scan_W_in_WRange_witness :
  let ext := Toy.world (mkRange1D (13 # 10) 2) (fun _ => mkRange1D 1 15)
               Toy.peak 3 None in
  let g := Toy.generator [] false in
  let rW := WRange ext g Toy.interaction0 in
  (0 <= kASmallNum ext /\ kASmallNum ext <= max rW - min rW)
  /\ 1.23 < min rW
  /\ scan_W ext g Toy.interaction0 = min rW + kASmallNum ext
  /\ min rW <= scan_W ext g Toy.interaction0 <= max rW.
Proof.
  cbv zeta.
  assert (He : 0 <= kASmallNum
                      (Toy.world (mkRange1D (13 # 10) 2)
                         (fun _ => mkRange1D 1 15) Toy.peak 3 None))
    by (apply Qle_bool_iff; vm_compute; reflexivity).
  assert (Hw : kASmallNum
                 (Toy.world (mkRange1D (13 # 10) 2)
                    (fun _ => mkRange1D 1 15) Toy.peak 3 None)
               <= max (WRange
                         (Toy.world (mkRange1D (13 # 10) 2)
                            (fun _ => mkRange1D 1 15) Toy.peak 3 None)
                         (Toy.generator [] false) Toy.interaction0)
                  - min (WRange
                           (Toy.world (mkRange1D (13 # 10) 2)
                              (fun _ => mkRange1D 1 15) Toy.peak 3 None)
                           (Toy.generator [] false) Toy.interaction0))
    by (apply Qle_bool_iff; vm_compute; reflexivity).
  pose proof (scan_W_in_WRange
                (Toy.world (mkRange1D (13 # 10) 2)
                   (fun _ => mkRange1D 1 15) Toy.peak 3 None)
                (Toy.generator [] false) Toy.interaction0 He Hw)
    as [_ [_ [Hbelow Hin]]].
  assert (Hmd : 1.23 < min (WRange
                              (Toy.world (mkRange1D (13 # 10) 2)
                                 (fun _ => mkRange1D 1 15) Toy.peak 3 None)
                              (Toy.generator [] false) Toy.interaction0))
    by (apply Qlt_bool_iff; vm_compute; reflexivity).
  split; [split; assumption|]. split; [exact Hmd|].
  split; [exact (Hbelow Hmd)|exact Hin].
Defined.

Section ScanTouches.

Context {RndState : Type}.
Variable ext : Externals RndState.
Variable i : Interaction.

Lemma backward_steps_based (n : nat) : forall (Q2 d rmin : Q) (s : ScanState),
  based i s -> based i (backward_steps ext n Q2 d rmin s).
Proof.
  induction n as [|n IH]; intros Q2 d rmin s Hb; cbn [backward_steps].
  - exact Hb.
  - set (q := TMath_Exp ext (TMath_Log ext Q2 - d)).
    destruct (Qlt_bool q rmin); apply IH; [exact Hb|].
    rewrite (sample_based ext i q s Hb). intro q'. reflexivity.
Qed.

Lemma Q2_scan_based (n : nat) : forall (iq2 : Z) (l d rmin xl : Q) (s : ScanState),
  based i s -> based i (Q2_scan ext n iq2 l d rmin xl s).
Proof.
  induction n as [|n IH]; intros iq2 l d rmin xl s Hb; cbn [Q2_scan].
  - exact Hb.
  - rewrite (sample_based ext i _ s Hb).
    assert (Hb' : based i (mkScan (SetQ2 (TMath_Exp ext (l + inject_Z iq2 * d)) false i)
                             (TMath_Max (xsec_at ext i (TMath_Exp ext (l + inject_Z iq2 * d)))
                                        (max_xsec s))
                             (scan_log s ++ [log_entry ext i (TMath_Exp ext (l + inject_Z iq2 * d))])))
      by (intro q'; reflexivity).
    destruct (negb _).
    + apply backward_steps_based. exact Hb'.
    + apply IH. exact Hb'.
Qed.

End ScanTouches.

(** X5.  The search changes the interaction it is given in two running
    values only: the running W, which it sets to the W of the scan and
    leaves there, and the running Q2.  The locked values, the running x
    and y, the trust bits and the initial state are as they were. *)
Theorem ComputeMaxXSec_touches_running_W_Q2_only
    {RndState : Type} (ext : Externals RndState)
    (g : RESKinematicsGenerator) (i : Interaction) (q : Q) :
  SetQ2 q false (snd (ComputeMaxXSec ext g i))
  = SetQ2 q false (SetW (scan_W ext g i) false i).
Proof.
  unfold ComputeMaxXSec.
  destruct (Q2_degenerate ext _); cbn [snd]; [reflexivity|].
  unfold scan_grid.
  apply (Q2_scan_based ext (SetW (scan_W ext g i) false i) NQ2 0 _ _ _ _
           (mkScan (SetW (scan_W ext g i) false i) 0 [])).
  intro q'. reflexivity.
Qed.

(** ** The passes of the selection loop *)

(** An invariant of the loop body carries over to the outcome of the
    loop. *)
Lemma rejection_loop_rule
    {RndState : Type} (ext : Externals RndState) (g : RESKinematicsGenerator)
    (Wmin Wmax dW xsec_max : Q)
    (P : LoopState (RndState := RndState) -> Prop)
    (R : Outcome (RndState := RndState) -> Prop) :
  (forall st, P st ->
     match iteration ext g Wmin Wmax dW xsec_max st with
     | Continue st' => P st'
     | Done o => R o
     end) ->
  forall fuel st o,
    P st -> rejection_loop ext g fuel Wmin Wmax dW xsec_max st = Some o -> R o.
Proof.
  intros Hstep fuel. induction fuel as [|fuel IH]; intros st o HP Hrun; [discriminate|].
  cbn [rejection_loop] in Hrun. specialize (Hstep st HP).
  destruct (iteration ext g Wmin Wmax dW xsec_max st) as [st'|o'].
  - exact (IH st' o Hstep Hrun).
  - injection Hrun as <-. exact Hstep.
Qed.

(** Case analysis of one pass: the ceiling, then per mode the skipped,
    accepted, rejected and stopped passes. *)
Ltac split_Rndm ext :=
  match goal with
  | |- context [Rndm ext ?s] => destruct (Rndm ext s) as [?u ?r] eqn:?Hu
  end.

Ltac split_accept ext g :=
  unfold accept_kinematics;
  match goal with H : fGenerateUniformly g = _ |- _ => rewrite H end;
  match goal with
  | |- context [WQ2toXY ext ?E ?M ?W ?Q2] =>
      destruct (WQ2toXY ext E M W Q2) as [?gx ?gy] eqn:?Hxy
  end.

Ltac split_trial_uniform ext g :=
  unfold try_kinematics;
  match goal with H : fGenerateUniformly g = true |- _ => rewrite H end;
  cbn [negb];
  match goal with
  | |- context [Qlt_bool 0 ?x] => destruct (Qlt_bool 0 x) eqn:?Hacc
  end;
  [ split_accept ext g | ].

Ltac split_trial_importance ext g :=
  match goal with
  | |- context [GetRandom2 ext ?f ?s] =>
      destruct (GetRandom2 ext f s) as [[?gQD2 ?gW] ?r] eqn:?Hdraw
  end;
  unfold try_kinematics;
  match goal with H : fGenerateUniformly g = false |- _ => rewrite H end;
  cbn [negb];
  split_Rndm ext;
  match goal with
  | |- context [AssertXSecLimits g ?x ?m] =>
      destruct (AssertXSecLimits g x m) eqn:?Hlim
  end;
  [ match goal with
    | |- context [if Qlt_bool ?t ?x then _ else _] =>
        destruct (Qlt_bool t x) eqn:?Hacc
    end;
    [ split_accept ext g | ]
  | ].

Ltac iteration_leaves ext g :=
  unfold iteration; cbn [iter set_iter];
  match goal with
  | |- context [(kRjMaxIterations ext <? ?n)%Z] =>
      destruct (kRjMaxIterations ext <? n)%Z eqn:?Hceil
  end;
  [ | destruct (fGenerateUniformly g) eqn:?Hmode;
      [ unfold generate_uniform; cbn [rnd evrec set_iter];
        split_Rndm ext;
        match goal with
        | |- context [no_phase_space ?q] => destruct (no_phase_space q) eqn:?Hq2
        end;
        [ | split_Rndm ext; split_trial_uniform ext g ]
      | unfold generate_importance; cbn [iter set_iter];
        match goal with
        | |- context [(?n =? 1)%Z] => destruct (n =? 1)%Z eqn:?Hfirst
        end;
        [ unfold init_envelope; cbn [evrec set_iter GetInteraction];
          match goal with
          | |- context [match GetExclusiveTag ?i with _ => _ end] =>
              destruct (GetExclusiveTag i) as [?res|] eqn:?Htag
          end;
          split_trial_importance ext g
        | split_trial_importance ext g ] ] ].

Section Passes.

Context {RndState : Type}.
Variable ext : Externals RndState.
Variable g : RESKinematicsGenerator.
Variables Wmin Wmax dW xsec_max : Q.
Variable st0 : LoopState (RndState := RndState).

Lemma iteration_record (st : LoopState) :
  same_scalars (evrec st0) (evrec st)
  /\ EventFlags (evrec st) = EventFlags (evrec st0) ->
  match iteration ext g Wmin Wmax dW xsec_max st with
  | Continue st' =>
      same_scalars (evrec st0) (evrec st')
      /\ EventFlags (evrec st') = EventFlags (evrec st0)
  | Done (Returned st') =>
      GetXSec (evrec st') = GetXSec (evrec st0)
      /\ EventFlags (evrec st') = EventFlags (evrec st0)
      /\ (fGenerateUniformly g = false -> GetWeight (evrec st') = GetWeight (evrec st0))
  | Done (Thrown _ st') =>
      same_scalars (evrec st0) (evrec st')
      /\ EventFlags (evrec st') = kNoValidKinematics :: EventFlags (evrec st0)
  | Done (AssertFailed st') | Done (XSecLimitsExceeded st') =>
      same_scalars (evrec st0) (evrec st')
      /\ EventFlags (evrec st') = EventFlags (evrec st0)
  end.
Proof.
  intros [(HX & HD & HW) HF].
  iteration_leaves ext g; unfold same_scalars; cbn;
    repeat split; try assumption; try congruence.
Qed.

End Passes.

(** X7.  What the loop does to the event record, whatever the mode and the
    external services: the total cross section is never written; the
    only flag ever set is [kNoValidKinematics], and only when the
    exhaustion exception is thrown; the differential cross section is
    written on acceptance only, and the weight on acceptance in uniform
    mode only (an event accepted in importance-sampled mode keeps its
    weight). *)
Theorem rejection_loop_event_record
    {RndState : Type} (ext : Externals RndState) (g : RESKinematicsGenerator)
    (Wmin Wmax dW xsec_max : Q) (fuel : nat) (st0 : LoopState) (o : Outcome) :
  rejection_loop ext g fuel Wmin Wmax dW xsec_max st0 = Some o ->
  match o with
  | Returned st =>
      GetXSec (evrec st) = GetXSec (evrec st0)
      /\ EventFlags (evrec st) = EventFlags (evrec st0)
      /\ (fGenerateUniformly g = false -> GetWeight (evrec st) = GetWeight (evrec st0))
  | Thrown _ st =>
      same_scalars (evrec st0) (evrec st)
      /\ EventFlags (evrec st) = kNoValidKinematics :: EventFlags (evrec st0)
  | AssertFailed st | XSecLimitsExceeded st =>
      same_scalars (evrec st0) (evrec st)
      /\ EventFlags (evrec st) = EventFlags (evrec st0)
  end.
Proof.
  intro Hrun.
  refine (rejection_loop_rule ext g Wmin Wmax dW xsec_max
            (fun st => same_scalars (evrec st0) (evrec st)
                       /\ EventFlags (evrec st) = EventFlags (evrec st0))
            (fun o => match o with
                      | Returned st =>
                          GetXSec (evrec st) = GetXSec (evrec st0)
                          /\ EventFlags (evrec st) = EventFlags (evrec st0)
                          /\ (fGenerateUniformly g = false ->
                              GetWeight (evrec st) = GetWeight (evrec st0))
                      | Thrown _ st =>
                          same_scalars (evrec st0) (evrec st)
                          /\ EventFlags (evrec st)
                             = kNoValidKinematics :: EventFlags (evrec st0)
                      | AssertFailed st | XSecLimitsExceeded st =>
                          same_scalars (evrec st0) (evrec st)
                          /\ EventFlags (evrec st) = EventFlags (evrec st0)
                      end)
            _ fuel st0 o _ Hrun).
  - intros st HP.
    pose proof (iteration_record ext g Wmin Wmax dW xsec_max st0 st HP) as H.
    destruct (iteration ext g Wmin Wmax dW xsec_max st) as [st'|[st'|x st'|st'|st']];
      exact H.
  - split; [repeat split|reflexivity].
Qed.

Lemma rejection_loop_event_record_witness :
  let ext := Toy.world (mkRange1D 1 2) (fun _ => mkRange1D 0.1 2) (fun _ => 0) 3 None in
  let g := Toy.generator [] true in
  let st0 := mkLoop 0 Toy.event0 (fEnvelope g) [0.5; 0.25] in
  exists x st,
    rejection_loop ext g 4 1 2 1 (-1) st0 = Some (Thrown x st)
    /\ EventFlags (evrec st) = [kNoValidKinematics]
    /\ GetWeight (evrec st) = 1.
Proof.
  cbv zeta. eexists. eexists. split; [vm_compute; reflexivity|].
  destruct (rejection_loop_event_record
              (Toy.world (mkRange1D 1 2) (fun _ => mkRange1D 0.1 2) (fun _ => 0) 3 None)
              (Toy.generator [] true) 1 2 1 (-1) 4
              (mkLoop 0 Toy.event0 (fEnvelope (Toy.generator [] true)) [0.5; 0.25])
              _ eq_refl) as [(_ & _ & HW) HF].
  split; [exact HF|exact HW].
Defined.

Section PassesOfTheLoop.

Context {RndState : Type}.
Variable ext : Externals RndState.
Variable g : RESKinematicsGenerator.
Variables Wmin Wmax dW xsec_max : Q.
Variable st0 : LoopState (RndState := RndState).

Lemma iteration_trust_bits (st : LoopState) :
  kISkipProcessChk (GetInteraction (evrec st))
  = kISkipProcessChk (GetInteraction (evrec st0)) ->
  match iteration ext g Wmin Wmax dW xsec_max st with
  | Continue st' =>
      kISkipProcessChk (GetInteraction (evrec st'))
      = kISkipProcessChk (GetInteraction (evrec st0))
  | Done (Returned st') =>
      kISkipProcessChk (GetInteraction (evrec st')) = false
      /\ kISkipKinematicChk (GetInteraction (evrec st')) = false
  | Done (Thrown _ st') | Done (AssertFailed st') | Done (XSecLimitsExceeded st') =>
      kISkipProcessChk (GetInteraction (evrec st'))
      = kISkipProcessChk (GetInteraction (evrec st0))
  end.
Proof.
  intro HP. iteration_leaves ext g; cbn; repeat split; assumption.
Qed.

Lemma iteration_derives_xy (st : LoopState) :
  GetProbeE (GetInteraction (evrec st)) = GetProbeE (GetInteraction (evrec st0))
  /\ StruckNucleonM (GetInteraction (evrec st))
     = StruckNucleonM (GetInteraction (evrec st0)) ->
  match iteration ext g Wmin Wmax dW xsec_max st with
  | Continue st' =>
      GetProbeE (GetInteraction (evrec st')) = GetProbeE (GetInteraction (evrec st0))
      /\ StruckNucleonM (GetInteraction (evrec st'))
         = StruckNucleonM (GetInteraction (evrec st0))
  | Done (Returned st') =>
      exists gW gQ2,
        let k := GetKinematics (GetInteraction (evrec st')) in
        let xy := WQ2toXY ext (GetProbeE (GetInteraction (evrec st0)))
                    (StruckNucleonM (GetInteraction (evrec st0))) gW gQ2 in
        sel_W k = Some gW /\ sel_Q2 k = Some gQ2
        /\ sel_x k = Some (fst xy) /\ sel_y k = Some (snd xy)
  | Done _ => True
  end.
Proof.
  intros [HE HM].
  iteration_leaves ext g; cbn; try exact I; try (split; assumption).
  all: cbn in Hxy; rewrite HE, HM in Hxy;
    eexists; eexists; split; [reflexivity|]; split; [reflexivity|];
    rewrite Hxy; split; reflexivity.
Qed.

End PassesOfTheLoop.

(** X8.  The two trust bits: both are reset when the loop ends by
    acceptance; on every other way out the bit [kISkipProcessChk] is
    what it was when the loop was entered ([ProcessEventRecord] enters
    the loop with the bit set, so a failed selection leaves it set). *)
Theorem rejection_loop_trust_bits
    {RndState : Type} (ext : Externals RndState) (g : RESKinematicsGenerator)
    (Wmin Wmax dW xsec_max : Q) (fuel : nat) (st0 : LoopState) (o : Outcome) :
  rejection_loop ext g fuel Wmin Wmax dW xsec_max st0 = Some o ->
  match o with
  | Returned st =>
      kISkipProcessChk (GetInteraction (evrec st)) = false
      /\ kISkipKinematicChk (GetInteraction (evrec st)) = false
  | Thrown _ st | AssertFailed st | XSecLimitsExceeded st =>
      kISkipProcessChk (GetInteraction (evrec st))
      = kISkipProcessChk (GetInteraction (evrec st0))
  end.
Proof.
  intro Hrun.
  refine (rejection_loop_rule ext g Wmin Wmax dW xsec_max
            (fun st => kISkipProcessChk (GetInteraction (evrec st))
                       = kISkipProcessChk (GetInteraction (evrec st0)))
            (fun o => match o with
                      | Returned st =>
                          kISkipProcessChk (GetInteraction (evrec st)) = false
                          /\ kISkipKinematicChk (GetInteraction (evrec st)) = false
                      | Thrown _ st | AssertFailed st | XSecLimitsExceeded st =>
                          kISkipProcessChk (GetInteraction (evrec st))
                          = kISkipProcessChk (GetInteraction (evrec st0))
                      end)
            _ fuel st0 o eq_refl Hrun).
  intros st HP.
  pose proof (iteration_trust_bits ext g Wmin Wmax dW xsec_max st0 st HP) as H.
  destruct (iteration ext g Wmin Wmax dW xsec_max st) as [st'|[st'|x st'|st'|st']];
    exact H.
Qed.

Lemma rejection_loop_trust_bits_witness :
  let ext := Toy.world (mkRange1D 1 2) (fun _ => mkRange1D 0.1 2) (fun _ => 0) 3 None in
  let g := Toy.generator [] true in
  let entry := SetInteraction (SetBit_SkipProcessChk true Toy.interaction0) Toy.event0 in
  let st0 := mkLoop 0 entry (fEnvelope g) [0.5; 0.25] in
  exists x st,
    rejection_loop ext g 4 1 2 1 (-1) st0 = Some (Thrown x st)
    /\ kISkipProcessChk (GetInteraction (evrec st)) = true.
Proof.
  cbv zeta. eexists. eexists. split; [vm_compute; reflexivity|].
  exact (rejection_loop_trust_bits
           (Toy.world (mkRange1D 1 2) (fun _ => mkRange1D 0.1 2) (fun _ => 0) 3 None)
           (Toy.generator [] true) 1 2 1 (-1) 4
           (mkLoop 0 (SetInteraction (SetBit_SkipProcessChk true Toy.interaction0) Toy.event0)
                   (fEnvelope (Toy.generator [] true)) [0.5; 0.25])
           _ eq_refl).
Defined.

(** X9.  When the loop ends by acceptance, the locked x and y are the values
    [WQ2toXY] derives from the locked W and Q2, the probe energy and
    the struck-nucleon mass of the interaction, in both modes. *)
Theorem rejection_loop_derives_xy
    {RndState : Type} (ext : Externals RndState) (g : RESKinematicsGenerator)
    (Wmin Wmax dW xsec_max : Q) (fuel : nat) (st0 st : LoopState) :
  rejection_loop ext g fuel Wmin Wmax dW xsec_max st0 = Some (Returned st) ->
  exists gW gQ2,
    let k := GetKinematics (GetInteraction (evrec st)) in
    let xy := WQ2toXY ext (GetProbeE (GetInteraction (evrec st0)))
                (StruckNucleonM (GetInteraction (evrec st0))) gW gQ2 in
    sel_W k = Some gW /\ sel_Q2 k = Some gQ2
    /\ sel_x k = Some (fst xy) /\ sel_y k = Some (snd xy).
Proof.
  intro Hrun.
  refine (rejection_loop_rule ext g Wmin Wmax dW xsec_max
            (fun st' =>
               GetProbeE (GetInteraction (evrec st'))
               = GetProbeE (GetInteraction (evrec st0))
               /\ StruckNucleonM (GetInteraction (evrec st'))
                  = StruckNucleonM (GetInteraction (evrec st0)))
            (fun o => match o with
                      | Returned st' =>
                          exists gW gQ2,
                            let k := GetKinematics (GetInteraction (evrec st')) in
                            let xy := WQ2toXY ext
                                        (GetProbeE (GetInteraction (evrec st0)))
                                        (StruckNucleonM (GetInteraction (evrec st0)))
                                        gW gQ2 in
                            sel_W k = Some gW /\ sel_Q2 k = Some gQ2
                            /\ sel_x k = Some (fst xy) /\ sel_y k = Some (snd xy)
                      | _ => True
                      end)
            _ fuel st0 (Returned st) (conj eq_refl eq_refl) Hrun).
  intros st' HP.
  pose proof (iteration_derives_xy ext g Wmin Wmax dW xsec_max st0 st' HP) as H.
  destruct (iteration ext g Wmin Wmax dW xsec_max st') as [st2|[st2|x st2|st2|st2]];
    exact H.
Qed.

Lemma rejection_loop_derives_xy_witness :
  let ext := Toy.world (mkRange1D 1 2) (fun _ => mkRange1D 0.1 2) (fun _ => 1) 3 None in
  let g := Toy.generator [] true in
  let st0 := mkLoop 0 Toy.event0 (fEnvelope g) [0.5; 0.5] in
  exists st gW gQ2,
    rejection_loop ext g 1 1 2 1 (-1) st0 = Some (Returned st)
    /\ sel_x (GetKinematics (GetInteraction (evrec st)))
       = Some (fst (Toy.WQ2toXY 3 0.938 gW gQ2)).
Proof.
  cbv zeta.
  destruct (rejection_loop
              (Toy.world (mkRange1D 1 2) (fun _ => mkRange1D 0.1 2) (fun _ => 1) 3 None)
              (Toy.generator [] true) 1 1 2 1 (-1)
              (mkLoop 0 Toy.event0 (fEnvelope (Toy.generator [] true)) [0.5; 0.5]))
    as [[st| | |]|] eqn:Erun; try (vm_compute in Erun; discriminate Erun).
  destruct (rejection_loop_derives_xy
              (Toy.world (mkRange1D 1 2) (fun _ => mkRange1D 0.1 2) (fun _ => 1) 3 None)
              (Toy.generator [] true) 1 2 1 (-1) 1
              (mkLoop 0 Toy.event0 (fEnvelope (Toy.generator [] true)) [0.5; 0.5])
              st Erun) as [gW [gQ2 (_ & _ & Hx & _)]].
  exists st, gW, gQ2. split; [reflexivity|exact Hx].
Defined.

(** ** The iteration counter *)

Lemma next_iter_range {RndState : Type} (st : LoopState (RndState := RndState)) :
  (0 <= next_iter st < 2 ^ 32)%Z.
Proof. unfold next_iter. apply Z.mod_pos_bound. reflexivity. Qed.

(** X10.  The counter is a 32-bit unsigned integer compared with
    [kRjMaxIterations]: if the ceiling is the largest value of the
    counter, [iter > kRjMaxIterations] never holds and the loop can
    only be left by an acceptance or by the cross-section-limit stop;
    it never throws. *)
Theorem no_exhaustion_at_counter_maximum
    {RndState : Type} (ext : Externals RndState) (g : RESKinematicsGenerator)
    (Wmin Wmax dW xsec_max : Q) (fuel : nat) (st0 : LoopState) (o : Outcome) :
  (2 ^ 32 - 1 <= kRjMaxIterations ext)%Z ->
  rejection_loop ext g fuel Wmin Wmax dW xsec_max st0 = Some o ->
  (exists st, o = Returned st) \/ (exists st, o = XSecLimitsExceeded st).
Proof.
  intros HN Hrun.
  refine (rejection_loop_rule ext g Wmin Wmax dW xsec_max
            (fun _ => True)
            (fun o => (exists st, o = Returned st)
                      \/ (exists st, o = XSecLimitsExceeded st))
            _ fuel st0 o I Hrun).
  intros st _.
  destruct (iteration_cases ext g Wmin Wmax dW xsec_max st)
    as [[Hlt _]|[_ [[st' [-> _]]|[[st' ->]|[st' ->]]]]]; eauto.
  exfalso. apply Z.ltb_lt in Hlt.
  pose proof (next_iter_range st). lia.
Qed.

Lemma no_exhaustion_at_counter_maximum_witness :
  let ext := Toy.world (mkRange1D 1 2) (fun _ => mkRange1D 0.1 2) (fun _ => 1)
               4294967295 None in
  let g := Toy.generator [] true in
  let st0 := mkLoop 4294967295 Toy.event0 (fEnvelope g) [0.5; 0.5] in
  exists st, rejection_loop ext g 1 1 2 1 (-1) st0 = Some (Returned st) /\ iter st = 0%Z.
Proof.
  cbv zeta.
  destruct (rejection_loop
              (Toy.world (mkRange1D 1 2) (fun _ => mkRange1D 0.1 2) (fun _ => 1)
                 4294967295 None)
              (Toy.generator [] true) 1 1 2 1 (-1)
              (mkLoop 4294967295 Toy.event0 (fEnvelope (Toy.generator [] true)) [0.5; 0.5]))
    as [o|] eqn:Erun; [|vm_compute in Erun; discriminate Erun].
  destruct (no_exhaustion_at_counter_maximum
              (Toy.world (mkRange1D 1 2) (fun _ => mkRange1D 0.1 2) (fun _ => 1)
                 4294967295 None)
              (Toy.generator [] true) 1 2 1 (-1) 1
              (mkLoop 4294967295 Toy.event0 (fEnvelope (Toy.generator [] true)) [0.5; 0.5])
              o ltac:(cbn; lia) Erun) as [[st Hst]|[st Hst]]; subst o.
  - exists st. split; [reflexivity|].
    vm_compute in Erun. injection Erun as <-. reflexivity.
  - vm_compute in Erun. discriminate Erun.
Defined.

Section ReturnedWithinCeiling.

Context {RndState : Type}.
Variable ext : Externals RndState.
Variable g : RESKinematicsGenerator.
Variables Wmin Wmax dW xsec_max : Q.

Hypothesis N_fits : (0 <= kRjMaxIterations ext < 2 ^ 32 - 1)%Z.




End ReturnedWithinCeiling.



(** ** Uniform mode *)

Section UniformPasses.

Context {RndState : Type}.
Variable ext : Externals RndState.
Variable g : RESKinematicsGenerator.
Variables Wmin Wmax dW xsec_max : Q.

Hypothesis uniform : fGenerateUniformly g = true.
Hypothesis N_fits : (0 <= kRjMaxIterations ext < 2 ^ 32 - 1)%Z.

Lemma rejection_loop_S (fuel : nat) (st : LoopState) :
  rejection_loop ext g (S fuel) Wmin Wmax dW xsec_max st
  = match iteration ext g Wmin Wmax dW xsec_max st with
    | Continue st' => rejection_loop ext g fuel Wmin Wmax dW xsec_max st'
    | Done o => Some o
    end.
Proof. reflexivity. Qed.

Lemma skipped_passes_exhaust (n : nat) : forall st : LoopState,
  no_phase_space (Q2Range ext g (GetInteraction (evrec st))) = true ->
  (0 <= iter st)%Z -> (iter st + Z.of_nat n = kRjMaxIterations ext)%Z ->
  exists st',
    rejection_loop ext g (S n) Wmin Wmax dW xsec_max st
    = Some (Thrown exhausted_exception st')
    /\ GetInteraction (evrec st') = GetInteraction (evrec st)
    /\ same_scalars (evrec st) (evrec st').
Proof.
  induction n as [|n IH]; intros st Hq H0 Hn.
  - rewrite rejection_loop_S. unfold iteration. fold (next_iter st).
    rewrite (next_iter_small ext N_fits st) by lia. cbn [iter set_iter].
    assert (Hc : (kRjMaxIterations ext <? iter st + 1)%Z = true)
      by (apply Z.ltb_lt; lia).
    rewrite Hc. eexists. split; [reflexivity|].
    split; [reflexivity|]. repeat split.
  - rewrite rejection_loop_S. unfold iteration. fold (next_iter st).
    rewrite (next_iter_small ext N_fits st) by lia. cbn [iter set_iter].
    assert (Hc : (kRjMaxIterations ext <? iter st + 1)%Z = false)
      by (apply Z.ltb_ge; lia).
    rewrite Hc, uniform. unfold generate_uniform. cbn [rnd evrec set_iter].
    destruct (Rndm ext (rnd st)) as [u r]. rewrite Hq.
    destruct (IH (set_rnd r (set_iter (iter st + 1)%Z st))) as [st' [Hrun [Hi Hs]]].
    + exact Hq.
    + cbn. lia.
    + cbn. lia.
    + exists st'. split; [exact Hrun|]. split; [exact Hi|exact Hs].
Qed.

End UniformPasses.

(** X12.  In uniform mode the Q2 range is asked of the interaction as it
    stands, and nothing is stored in the interaction by a skipped pass.
    So when the Q2 range of the interaction on entry is empty, every
    pass is skipped, whatever W is drawn: the call ends by the
    exhaustion exception after [kRjMaxIterations] skipped passes, with
    no cross section computed into the event and the interaction left
    as it was on entry (trust bit set). *)
Theorem uniform_entry_Q2_range_empty_exhausts
    {RndState : Type} (ext : Externals RndState) (g : RESKinematicsGenerator)
    (event : GHepRecord) (r : RndState) :
  let entry := SetBit_SkipProcessChk true (GetInteraction event) in
  fGenerateUniformly g = true ->
  (0 <= kRjMaxIterations ext < 2 ^ 32 - 1)%Z ->
  W_assertion (WRange ext g entry) = true ->
  no_phase_space (Q2Range ext g entry) = true ->
  exists st,
    ProcessEventRecord ext g (S (Z.to_nat (kRjMaxIterations ext))) event r
    = Some (Thrown exhausted_exception st)
    /\ GetInteraction (evrec st) = entry
    /\ same_scalars event (evrec st).
Proof.
  cbv zeta. intros Hu HN HW Hq. unfold ProcessEventRecord.
  rewrite HW. cbn [negb]. rewrite (W_assertion_excludes_empty _ HW), Hu.
  destruct (skipped_passes_exhaust ext g
              (min (WRange ext g (SetBit_SkipProcessChk true (GetInteraction event)))
               + kASmallNum ext)
              (max (WRange ext g (SetBit_SkipProcessChk true (GetInteraction event)))
               - kASmallNum ext)
              (max (WRange ext g (SetBit_SkipProcessChk true (GetInteraction event)))
               - kASmallNum ext
               - (min (WRange ext g (SetBit_SkipProcessChk true (GetInteraction event)))
                  + kASmallNum ext))
              (-1) Hu HN (Z.to_nat (kRjMaxIterations ext))
              (set_evrec
                 (SetInteraction (SetBit_SkipProcessChk true (GetInteraction event)) event)
                 (mkLoop 0
                    (SetInteraction (SetBit_SkipProcessChk true (GetInteraction event)) event)
                    (fEnvelope g) r)))
    as [st [Hrun [Hi Hs]]].
  - exact Hq.
  - cbn. lia.
  - cbn. lia.
  - exists st. split; [exact Hrun|]. split; [exact Hi|exact Hs].
Qed.

Lemma uniform_entry_Q2_range_empty_witness :
  let ext := Toy.world (mkRange1D 1 2) Toy.Q2_for_W (fun _ => 1) 3 None in
  let g := Toy.generator [] true in
  exists st,
    ProcessEventRecord ext g 4 Toy.event0 [0.5; 0.5; 0.5; 0.5]
    = Some (Thrown exhausted_exception st)
    /\ GetInteraction (evrec st) = SetBit_SkipProcessChk true Toy.interaction0.
Proof.
  cbv zeta.
  destruct (uniform_entry_Q2_range_empty_exhausts
              (Toy.world (mkRange1D 1 2) Toy.Q2_for_W (fun _ => 1) 3 None)
              (Toy.generator [] true) Toy.event0 [0.5; 0.5; 0.5; 0.5]
              eq_refl ltac:(cbn; lia) eq_refl eq_refl) as [st [Hrun [Hi _]]].
  exists st. split; [exact Hrun|exact Hi].
Defined.

(** ** The envelope *)

Section EnvelopeOnce.

Context {RndState : Type}.
Variable ext : Externals RndState.
Variable g : RESKinematicsGenerator.
Variables Wmin Wmax dW xsec_max : Q.
Variable st0 : LoopState (RndState := RndState).

Hypothesis N_fits : (1 <= kRjMaxIterations ext < 2 ^ 32 - 1)%Z.
Hypothesis starts : iter st0 = 0%Z.

Lemma init_envelope_ignores_iter (n : Z) (st : LoopState) :
  envelope (init_envelope ext g Wmin Wmax xsec_max (set_iter n st))
  = envelope (init_envelope ext g Wmin Wmax xsec_max st).
Proof.
  unfold init_envelope. cbn [evrec set_iter envelope].
  destruct (GetExclusiveTag _); reflexivity.
Qed.

Lemma iteration_envelope_uniform (st : LoopState) :
  fGenerateUniformly g = true ->
  envelope st = envelope st0 ->
  match iteration ext g Wmin Wmax dW xsec_max st with
  | Continue st' => envelope st' = envelope st0
  | Done o => envelope (state_of o) = envelope st0
  end.
Proof.
  intros Hm HP. iteration_leaves ext g; try congruence; cbn; exact HP.
Qed.

Lemma try_kinematics_envelope (gW gQ2 gQD2 : Q) (st : LoopState) :
  match try_kinematics ext g gW gQ2 gQD2 st with
  | Continue st' => envelope st' = envelope st /\ iter st' = iter st
  | Done o => envelope (state_of o) = envelope st
  end.
Proof.
  unfold try_kinematics.
  destruct (fGenerateUniformly g) eqn:Hm; cbn [negb].
  - destruct (Qlt_bool 0 _); [|split; reflexivity].
    unfold accept_kinematics. rewrite Hm.
    destruct (WQ2toXY ext _ _ _ _). reflexivity.
  - destruct (Rndm ext _) as [u r].
    destruct (AssertXSecLimits g _ _); [|reflexivity].
    destruct (Qlt_bool _ _); [|split; reflexivity].
    unfold accept_kinematics. rewrite Hm.
    destruct (WQ2toXY ext _ _ _ _). reflexivity.
Qed.

Lemma generate_importance_envelope (st : LoopState) :
  match generate_importance ext g Wmin Wmax xsec_max st with
  | Skipped st' | Candidate _ _ _ st' =>
      iter st' = iter st
      /\ envelope st'
         = if (iter st =? 1)%Z
           then envelope (init_envelope ext g Wmin Wmax xsec_max st)
           else envelope st
  end.
Proof.
  unfold generate_importance.
  destruct (iter st =? 1)%Z.
  - destruct (GetRandom2 ext _ _) as [[gQD2 gW] r]. cbn [set_rnd iter envelope].
    split; [|reflexivity].
    unfold init_envelope. destruct (GetExclusiveTag _); reflexivity.
  - destruct (GetRandom2 ext _ _) as [[gQD2 gW] r]. split; reflexivity.
Qed.

Lemma iteration_envelope_importance (st : LoopState) :
  fGenerateUniformly g = false ->
  st = st0
  \/ ((1 <= iter st <= kRjMaxIterations ext)%Z
      /\ envelope st = envelope (init_envelope ext g Wmin Wmax xsec_max st0)) ->
  match iteration ext g Wmin Wmax dW xsec_max st with
  | Continue st' =>
      st' = st0
      \/ ((1 <= iter st' <= kRjMaxIterations ext)%Z
          /\ envelope st' = envelope (init_envelope ext g Wmin Wmax xsec_max st0))
  | Done o =>
      envelope (state_of o) = envelope (init_envelope ext g Wmin Wmax xsec_max st0)
  end.
Proof.
  intros Hm HP.
  assert (Hnext : (st = st0 /\ next_iter st = 1%Z)
                  \/ ((2 <= next_iter st)%Z
                      /\ next_iter st = (iter st + 1)%Z
                      /\ envelope st
                         = envelope (init_envelope ext g Wmin Wmax xsec_max st0))).
  { destruct HP as [->|[Hi He]].
    - left. split; [reflexivity|]. unfold next_iter. now rewrite starts.
    - right. unfold next_iter. rewrite Z.mod_small.
      + repeat split; [lia|exact He].
      + change (2 ^ 32)%Z with 4294967296%Z in *. lia. }
  unfold iteration. fold (next_iter st).
  set (st1 := set_iter (next_iter st) st).
  assert (Hi1 : iter st1 = next_iter st) by reflexivity.
  assert (He1 : envelope st1 = envelope st) by reflexivity.
  rewrite Hi1.
  destruct (kRjMaxIterations ext <? next_iter st)%Z eqn:Hceil.
  - apply Z.ltb_lt in Hceil. cbn [state_of raise_flag set_evrec envelope].
    destruct Hnext as [[_ H1]|[_ [_ He]]]; [lia|]. now rewrite He1.
  - apply Z.ltb_ge in Hceil. rewrite Hm.
    pose proof (generate_importance_envelope st1) as Hg.
    assert (Henv : (if (iter st1 =? 1)%Z
                    then envelope (init_envelope ext g Wmin Wmax xsec_max st1)
                    else envelope st1)
                   = envelope (init_envelope ext g Wmin Wmax xsec_max st0)).
    { rewrite Hi1. destruct Hnext as [[-> H1]|[H2 [_ He]]].
      - rewrite H1. cbn [Z.eqb Pos.eqb]. unfold st1. apply init_envelope_ignores_iter.
      - destruct (next_iter st =? 1)%Z eqn:E1; [apply Z.eqb_eq in E1; lia|].
        now rewrite He1. }
    assert (Hrange : (1 <= next_iter st <= kRjMaxIterations ext)%Z).
    { destruct Hnext as [[_ H1]|[H2 _]]; lia. }
    destruct (generate_importance ext g Wmin Wmax xsec_max st1)
      as [st2|gW gQ2 gQD2 st2]; destruct Hg as [Hi2 He2]; rewrite Henv in He2.
    + right. split; [rewrite Hi2, Hi1; exact Hrange|exact He2].
    + pose proof (try_kinematics_envelope gW gQ2 gQD2 st2) as Ht.
      destruct (try_kinematics ext g gW gQ2 gQD2 st2) as [st3|o].
      * destruct Ht as [He3 Hi3]. right.
        split; [rewrite Hi3, Hi2, Hi1; exact Hrange|now rewrite He3].
      * now rewrite Ht.
Qed.

End EnvelopeOnce.

(** X13.  The envelope is configured once per call of the loop: in
    importance-sampled mode, whatever the number of passes and however
    the loop ends, the envelope left behind is the one the first pass
    set up from the state on entry (ceiling [xsec_max], upper W
    [Wmax], W range [[Wmin, Wmax]]); later passes never reconfigure it.
    In uniform mode the envelope is not touched. *)
Theorem envelope_configured_once
    {RndState : Type} (ext : Externals RndState) (g : RESKinematicsGenerator)
    (Wmin Wmax dW xsec_max : Q) (fuel : nat) (st0 : LoopState) (o : Outcome) :
  (1 <= kRjMaxIterations ext < 2 ^ 32 - 1)%Z ->
  iter st0 = 0%Z ->
  rejection_loop ext g fuel Wmin Wmax dW xsec_max st0 = Some o ->
  let configured := envelope (init_envelope ext g Wmin Wmax xsec_max st0) in
  envelope (state_of o)
  = (if fGenerateUniformly g then envelope st0 else configured)
  /\ par2 configured = xsec_max /\ par3 configured = Wmax
  /\ tf_ymin configured = Wmin /\ tf_ymax configured = Wmax.
Proof.
  intros HN H0 Hrun. cbv zeta. split.
  - destruct (fGenerateUniformly g) eqn:Hm.
    + refine (rejection_loop_rule ext g Wmin Wmax dW xsec_max
                (fun st => envelope st = envelope st0)
                (fun o => envelope (state_of o) = envelope st0)
                _ fuel st0 o eq_refl Hrun).
      intros st HP.
      exact (iteration_envelope_uniform ext g Wmin Wmax dW xsec_max st0 st Hm HP).
    + refine (rejection_loop_rule ext g Wmin Wmax dW xsec_max
                (fun st =>
                   st = st0
                   \/ ((1 <= iter st <= kRjMaxIterations ext)%Z
                       /\ envelope st
                          = envelope (init_envelope ext g Wmin Wmax xsec_max st0)))
                (fun o => envelope (state_of o)
                          = envelope (init_envelope ext g Wmin Wmax xsec_max st0))
                _ fuel st0 o (or_introl eq_refl) Hrun).
      intros st HP.
      exact (iteration_envelope_importance ext g Wmin Wmax dW xsec_max st0 HN H0 st Hm HP).
  - unfold init_envelope. destruct (GetExclusiveTag _); repeat split; reflexivity.
Qed.

Lemma envelope_configured_once_witness :
  let ext := Toy.world (mkRange1D 1 2) (fun _ => mkRange1D 0.1 2) (fun _ => 0) 3 (Some 1) in
  let g := Toy.generator [] false in
  let st0 := mkLoop 0 Toy.event0 (fEnvelope g) [0.5; 0.5; 0.5; 0.5; 0.5; 0.5; 0.5; 0.5; 0.5] in
  exists x st,
    rejection_loop ext g 4 1 1.7 0.7 1 st0 = Some (Thrown x st)
    /\ par2 (envelope st) = 1 /\ tf_ymax (envelope st) = 1.7.
Proof.
  cbv zeta.
  destruct (rejection_loop
              (Toy.world (mkRange1D 1 2) (fun _ => mkRange1D 0.1 2) (fun _ => 0) 3 (Some 1))
              (Toy.generator [] false) 4 1 1.7 0.7 1
              (mkLoop 0 Toy.event0 (fEnvelope (Toy.generator [] false))
                 [0.5; 0.5; 0.5; 0.5; 0.5; 0.5; 0.5; 0.5; 0.5]))
    as [[|x st| |]|] eqn:Erun; try (vm_compute in Erun; discriminate Erun).
  destruct (envelope_configured_once
              (Toy.world (mkRange1D 1 2) (fun _ => mkRange1D 0.1 2) (fun _ => 0) 3 (Some 1))
              (Toy.generator [] false) 1 1.7 0.7 1 4
              (mkLoop 0 Toy.event0 (fEnvelope (Toy.generator [] false))
                 [0.5; 0.5; 0.5; 0.5; 0.5; 0.5; 0.5; 0.5; 0.5])
              (Thrown x st) ltac:(cbn; lia) eq_refl Erun)
    as (He & H2 & _ & _ & H4).
  exists x, st. split; [reflexivity|].
  cbn [state_of] in He. change (fGenerateUniformly (Toy.generator [] false)) with false in He.
  cbv iota in He. rewrite He. split; [exact H2|exact H4].
Defined.

(** ** What uniform mode selects *)

Lemma not_empty_range (r : Range1D_t) :
  no_phase_space r = false -> min r < max r /\ 0 < max r.
Proof.
  unfold no_phase_space. intro H. apply orb_false_iff in H. destruct H as [H0 Hm].
  split; apply Qlt_bool_iff; unfold Qlt_bool; [now rewrite Hm|now rewrite H0].
Qed.

(** X14.  A pass of the loop in uniform mode, below the iteration ceiling.
    If the Q2 range of the interaction as it stands is empty the pass
    is skipped and the interaction is not touched.  Otherwise the
    candidate is stored in the interaction as running W and Q2, the
    kinematic-check bit is set, and the candidate is accepted if and
    only if the cross section computed there is strictly positive: a
    zero or negative cross section sends the loop to its next pass. *)
Theorem uniform_pass_accepts_positive_xsec
    {RndState : Type} (ext : Externals RndState) (g : RESKinematicsGenerator)
    (Wmin Wmax dW xsec_max : Q) (st : LoopState) :
  fGenerateUniformly g = true ->
  (kRjMaxIterations ext <? next_iter st)%Z = false ->
  let run := iteration ext g Wmin Wmax dW xsec_max st in
  let i := GetInteraction (evrec st) in
  let Q2 := Q2Range ext g i in
  let u := fst (Rndm ext (rnd st)) in
  let u' := fst (Rndm ext (snd (Rndm ext (rnd st)))) in
  let gW := Wmin + dW * u in
  let gQ2 := min Q2 + (max Q2 - min Q2) * u' in
  let trial := SetQ2 gQ2 false (SetW gW false (SetBit_SkipKinematicChk true i)) in
  (no_phase_space Q2 = true ->
     exists st', run = Continue st' /\ GetInteraction (evrec st') = i)
  /\ (no_phase_space Q2 = false ->
      ((exists st', run = Done (Returned st')) <-> 0 < XSec ext trial kPSWQ2fE)
      /\ ((exists st', run = Continue st' /\ GetInteraction (evrec st') = trial)
          <-> ~ 0 < XSec ext trial kPSWQ2fE)).
Proof.
  intros Hm Hceil. cbv zeta. unfold iteration. fold (next_iter st).
  cbn [iter set_iter]. rewrite Hceil, Hm.
  unfold generate_uniform. cbn [rnd evrec set_iter].
  destruct (Rndm ext (rnd st)) as [u r]. cbn [fst snd].
  destruct (no_phase_space (Q2Range ext g (GetInteraction (evrec st)))) eqn:Hq.
  - split; [|discriminate]. intros _. eexists. split; reflexivity.
  - split; [discriminate|]. intros _.
    destruct (Rndm ext r) as [u' r']. cbn [fst].
    unfold try_kinematics. rewrite Hm. cbn [negb].
    cbn [set_interaction set_evrec set_rnd evrec GetInteraction SetInteraction].
    destruct (Qlt_bool 0 _) eqn:Hacc.
    + apply Qlt_bool_iff in Hacc. split; split.
      * intros _. exact Hacc.
      * intros _. eauto.
      * intros [st' [E _]]. discriminate E.
      * intro Hn. contradiction.
    + assert (Hn : ~ 0 < XSec ext
                         (SetQ2 (min (Q2Range ext g (GetInteraction (evrec st)))
                                 + (max (Q2Range ext g (GetInteraction (evrec st)))
                                    - min (Q2Range ext g (GetInteraction (evrec st)))) * u')
                            false
                            (SetW (Wmin + dW * u) false
                               (SetBit_SkipKinematicChk true (GetInteraction (evrec st)))))
                         kPSWQ2fE).
      { intro Hlt. apply Qlt_bool_iff in Hlt. congruence. }
      split; split.
      * intros [st' E]. discriminate E.
      * intro Hlt. contradiction.
      * intros _. exact Hn.
      * intros _. eexists. split; reflexivity.
Qed.

Lemma uniform_pass_witness :
  let ext := Toy.world (mkRange1D 1 2) (fun _ => mkRange1D 0.1 2) (fun _ => 1) 3 None in
  let g := Toy.generator [] true in
  let st := mkLoop 0 Toy.event0 (fEnvelope g) [0.5; 0.5] in
  exists st', iteration ext g 1 2 1 (-1) st = Done (Returned st').
Proof.
  cbv zeta.
  destruct (uniform_pass_accepts_positive_xsec
              (Toy.world (mkRange1D 1 2) (fun _ => mkRange1D 0.1 2) (fun _ => 1) 3 None)
              (Toy.generator [] true) 1 2 1 (-1)
              (mkLoop 0 Toy.event0 (fEnvelope (Toy.generator [] true)) [0.5; 0.5])
              eq_refl eq_refl) as [_ H].
  cbv zeta in H. destruct (H eq_refl) as [[_ Hacc] _].
  apply Hacc. reflexivity.
Defined.

(** X15.  With a random source that returns non-negative values and a
    non-negative [dW], a pass of uniform mode is skipped exactly when
    the Q2 range it read from the interaction is empty ([max <= 0] or
    [min >= max]); otherwise its candidate has a W that is not below
    [Wmin] and a Q2 that is not below the lower end of that Q2
    range. *)
Theorem uniform_candidate_lower_bounds
    {RndState : Type} (ext : Externals RndState) (g : RESKinematicsGenerator)
    (Wmin dW : Q) (st : LoopState) :
  (forall s, 0 <= fst (Rndm ext s)) ->
  0 <= dW ->
  let Q2 := Q2Range ext g (GetInteraction (evrec st)) in
  match generate_uniform ext g Wmin dW st with
  | Skipped _ => max Q2 <= 0 \/ max Q2 <= min Q2
  | Candidate gW gQ2 _ _ =>
      (0 < max Q2 /\ min Q2 < max Q2) /\ Wmin <= gW /\ min Q2 <= gQ2
  end.
Proof.
  intros Hrnd HdW. cbv zeta. unfold generate_uniform.
  pose proof (Hrnd (rnd st)) as H1.
  destruct (Rndm ext (rnd st)) as [u r]. cbn [fst] in H1.
  destruct (no_phase_space _) eqn:Hq.
  - unfold no_phase_space in Hq. apply orb_true_iff in Hq.
    destruct Hq as [Hq|Hq]; apply Qle_bool_iff in Hq; [left|right]; exact Hq.
  - pose proof (Hrnd r) as H2.
    destruct (Rndm ext r) as [u' r']. cbn [fst] in H2.
    apply not_empty_range in Hq. destruct Hq as [Hq Hq0].
    set (lo := min (Q2Range ext g (GetInteraction (evrec st)))) in *.
    set (hi := max (Q2Range ext g (GetInteraction (evrec st)))) in *.
    split; [split; assumption|]. split; nra.
Qed.

Lemma counting_Rndm_range (n : nat) :
  0 <= fst (Toy.counting_Rndm n) /\ fst (Toy.counting_Rndm n) < 1.
Proof.
  unfold Toy.counting_Rndm. cbn [fst]. unfold Qle, Qlt. cbn [Qnum Qden].
  rewrite Zpos_P_of_succ_nat. lia.
Qed.

Lemma uniform_candidate_witness :
  let ext := Toy.counting_world (mkRange1D 1 2) (fun _ => mkRange1D 0.1 2)
               (fun _ => 1) 3 None in
  let g := Toy.generator [] true in
  let st := mkLoop 0 Toy.event0 (fEnvelope g) 0%nat in
  match generate_uniform ext g 1 1 st with
  | Skipped _ => False
  | Candidate gW gQ2 _ _ => 1 <= gW /\ 0.1 <= gQ2
  end.
Proof.
  cbv zeta.
  pose proof (uniform_candidate_lower_bounds
                (Toy.counting_world (mkRange1D 1 2) (fun _ => mkRange1D 0.1 2)
                   (fun _ => 1) 3 None)
                (Toy.generator [] true) 1 1
                (mkLoop 0 Toy.event0 (fEnvelope (Toy.generator [] true)) 0%nat)
                (fun n => proj1 (counting_Rndm_range n))
                ltac:(apply Qle_bool_iff; reflexivity)) as H.
  cbv zeta in H.
  destruct (generate_uniform _ _ _ _ _) as [st'|gW gQ2 gQD2 st'].
  - destruct H as [H|H]; apply Qle_bool_iff in H; vm_compute in H; discriminate H.
  - exact (proj2 H).
Defined.

Section UniformSelection.

Context {RndState : Type}.
Variable ext : Externals RndState.
Variable g : RESKinematicsGenerator.
Variables Wmin Wmax dW xsec_max : Q.

Hypothesis uniform : fGenerateUniformly g = true.
Hypothesis Rndm_nonneg : forall s, 0 <= fst (Rndm ext s).
Hypothesis dW_nonneg : 0 <= dW.

Lemma iteration_uniform_selected (st : LoopState) :
  match iteration ext g Wmin Wmax dW xsec_max st with
  | Done (Returned st') =>
      exists gW,
        sel_W (GetKinematics (GetInteraction (evrec st'))) = Some gW
        /\ Wmin <= gW
        /\ 0 < GetDiffXSec (evrec st')
  | _ => True
  end.
Proof.
  pose proof (Rndm_nonneg (rnd st)) as Hr.
  iteration_leaves ext g; try exact I; try congruence.
  cbn [fst] in Hr.
  apply Qlt_bool_iff in Hacc.
  cbn [evrec set_evrec set_rnd set_interaction GetInteraction SetInteraction
       GetKinematics Sety Setx SetW SetQ2 with_kine sel_W Kine_SetW Kine_SetQ2
       Kine_Setx Kine_Sety ClearRunningValues GetDiffXSec SetDiffXSec SetWeight
       SetBit_SkipProcessChk SetBit_SkipKinematicChk] in Hacc |- *.
  eexists. split; [reflexivity|].
  split; [nra|exact Hacc].
Qed.

End UniformSelection.

(** X16.  What a uniform-mode call returns, with a random source that
    returns non-negative values and a W range at least [2 kASmallNum]
    wide: the locked W is not below [W.min + kASmallNum], the lower end
    from which the loop draws, and the differential cross section
    stored in the event is strictly positive. *)
Theorem uniform_selection_above_Wmin
    {RndState : Type} (ext : Externals RndState) (g : RESKinematicsGenerator)
    (fuel : nat) (event : GHepRecord) (r : RndState) (st : LoopState) :
  let W := WRange ext g (SetBit_SkipProcessChk true (GetInteraction event)) in
  fGenerateUniformly g = true ->
  (forall s, 0 <= fst (Rndm ext s)) ->
  2 * kASmallNum ext <= max W - min W ->
  ProcessEventRecord ext g fuel event r = Some (Returned st) ->
  exists gW,
    sel_W (GetKinematics (GetInteraction (evrec st))) = Some gW
    /\ min W + kASmallNum ext <= gW
    /\ 0 < GetDiffXSec (evrec st).
Proof.
  cbv zeta. intros Hu Hrnd Hwide. unfold ProcessEventRecord.
  destruct (W_assertion _); cbn [negb]; [|discriminate].
  destruct (no_phase_space _); [discriminate|].
  rewrite Hu. intro Hrun.
  set (W := WRange ext g (SetBit_SkipProcessChk true (GetInteraction event))) in *.
  assert (HdW : 0 <= max W - kASmallNum ext - (min W + kASmallNum ext)) by lra.
  exact (rejection_loop_rule ext g _ _ _ _
           (fun _ => True)
           (fun o => match o with
                     | Returned st' =>
                         exists gW,
                           sel_W (GetKinematics (GetInteraction (evrec st'))) = Some gW
                           /\ min W + kASmallNum ext <= gW
                           /\ 0 < GetDiffXSec (evrec st')
                     | _ => True
                     end)
           (fun st' _ => iteration_uniform_selected ext g _ _ _ _ Hu Hrnd HdW st')
           fuel _ (Returned st) I Hrun).
Qed.

Lemma uniform_selection_witness :
  let ext := Toy.counting_world (mkRange1D 1 2) (fun _ => mkRange1D 0.1 2)
               (fun _ => 1) 3 None in
  let g := Toy.generator [] true in
  exists st gW,
    ProcessEventRecord ext g 1 Toy.event0 0%nat = Some (Returned st)
    /\ sel_W (GetKinematics (GetInteraction (evrec st))) = Some gW
    /\ 1 < gW /\ 0 < GetDiffXSec (evrec st).
Proof.
  cbv zeta.
  destruct (ProcessEventRecord
              (Toy.counting_world (mkRange1D 1 2) (fun _ => mkRange1D 0.1 2)
                 (fun _ => 1) 3 None)
              (Toy.generator [] true) 1 Toy.event0 0%nat)
    as [[st| | |]|] eqn:Erun; try (vm_compute in Erun; discriminate Erun).
  destruct (uniform_selection_above_Wmin
              (Toy.counting_world (mkRange1D 1 2) (fun _ => mkRange1D 0.1 2)
                 (fun _ => 1) 3 None)
              (Toy.generator [] true) 1 Toy.event0 0%nat st
              eq_refl (fun n => proj1 (counting_Rndm_range n))
              ltac:(apply Qle_bool_iff; reflexivity) Erun)
    as [gW (Hs & Hlo & Hx)].
  exists st, gW. split; [reflexivity|]. split; [exact Hs|].
  assert (E1 : min (WRange (Toy.counting_world (mkRange1D 1 2) (fun _ => mkRange1D 0.1 2)
                              (fun _ => 1) 3 None)
                      (Toy.generator [] true)
                      (SetBit_SkipProcessChk true (GetInteraction Toy.event0))) = 1)
    by reflexivity.
  rewrite E1 in Hlo.
  change (kASmallNum (Toy.counting_world (mkRange1D 1 2) (fun _ => mkRange1D 0.1 2)
                        (fun _ => 1) 3 None)) with 0.000001 in *.
  split; [lra|exact Hx].
Defined.

(** ** Where the search evaluates the cross section *)

Section ScanEntries.

Context {RndState : Type}.
Variable ext : Externals RndState.
Variable i : Interaction.
Variable rQ2 : Range1D_t.

Lemma backward_steps_entries (P : Q * Q -> Prop) (n : nat) :
  forall (Q2 d : Q) (s : ScanState),
    (forall q, In q (back_points ext n Q2 d) -> min rQ2 <= q ->
               P (log_entry ext i q)) ->
    based i s -> Forall P (scan_log s) ->
    Forall P (scan_log (backward_steps ext n Q2 d (min rQ2) s)).
Proof.
  induction n as [|n IH]; intros Q2 d s HP Hb Hs;
    cbn [backward_steps back_points] in *.
  - exact Hs.
  - set (q := TMath_Exp ext (TMath_Log ext Q2 - d)) in *.
    assert (HP' : forall q', In q' (back_points ext n q d) -> min rQ2 <= q' ->
                             P (log_entry ext i q')).
    { intros q' Hin Hq'. apply HP; [right; exact Hin|exact Hq']. }
    destruct (Qlt_bool q (min rQ2)) eqn:E; [apply IH; assumption|].
    apply Qlt_bool_false_iff in E.
    apply IH.
    + exact HP'.
    + rewrite (sample_based ext i q s Hb). intro q'. reflexivity.
    + rewrite (sample_based ext i q s Hb). cbn [snd scan_log].
      apply Forall_app. split; [exact Hs|].
      constructor; [apply HP; [left; reflexivity|exact E]|constructor].
Qed.

(** A scan entered at step [j0] with [xseclast] as that step finds it
    logs coarse points of steps [j0 ..], and back points of a step at
    which the cross section dropped. *)
Lemma scan_from_entries (P : Q * Q -> Prop) (n : nat) :
  forall (j0 : nat) (s : ScanState),
    (forall k, (j0 <= k < j0 + n)%nat ->
               P (log_entry ext i (grid_Q2 ext rQ2 k))) ->
    (forall k q, (j0 <= k < j0 + n)%nat ->
                 Qle_bool 0 (grid_xsec ext i rQ2 k - xsec_before ext i rQ2 k) = false ->
                 In q (back_points ext kNQ2b (grid_Q2 ext rQ2 k)
                         (dlogQ2 ext rQ2 / inject_Z (Z.of_nat kNQ2b))) ->
                 min rQ2 <= q ->
                 P (log_entry ext i q)) ->
    based i s -> Forall P (scan_log s) ->
    Forall P (scan_log (scan_from ext rQ2 n j0 (xsec_before ext i rQ2 j0) s)).
Proof.
  induction n as [|n IH]; intros j0 s Hgrid Hback Hb Hs.
  - exact Hs.
  - rewrite (scan_step ext i rQ2 n j0 _ s Hb). cbv zeta.
    assert (Hb1 : based i (snd (sample ext (grid_Q2 ext rQ2 j0) s))).
    { rewrite (sample_based ext i _ s Hb). intro q'. reflexivity. }
    assert (Hs1 : Forall P (scan_log (snd (sample ext (grid_Q2 ext rQ2 j0) s)))).
    { rewrite (sample_based ext i _ s Hb). cbn [snd scan_log].
      apply Forall_app. split; [exact Hs|].
      constructor; [apply Hgrid; lia|constructor]. }
    destruct (Qle_bool 0 (grid_xsec ext i rQ2 j0 - xsec_before ext i rQ2 j0))
      eqn:E; cbn [negb].
    + apply (IH (S j0)); [| |assumption|assumption].
      * intros k Hk. apply Hgrid. lia.
      * intros k q Hk. apply Hback. lia.
    + apply backward_steps_entries; [|assumption|assumption].
      intros q Hin Hq. apply (Hback j0 q); [lia|exact E|exact Hin|exact Hq].
Qed.

End ScanEntries.

(** X6.  Every evaluation the scan logs is the cross section of the
    interaction it was given with only the running Q2 replaced (W is
    not moved during the scan), and its Q2 is either one of the 15
    points of the coarse grid, or one of the 3 points reached by
    stepping back, a third of the coarse step at a time in log Q2, from
    a coarse point at which the cross section fell below that of the
    point before; such a back point is not below the lower end of the
    Q2 range. *)
Theorem scan_evaluation_points
    {RndState : Type} (ext : Externals RndState)
    (i : Interaction) (rQ2 : Range1D_t) (Q2 xsec : Q) :
  In (Q2, xsec) (scan_log (scan_grid ext i rQ2)) ->
  xsec = XSec ext (SetQ2 Q2 false i) kPSWQ2fE
  /\ ((exists k, (k < NQ2)%nat /\ Q2 = grid_Q2 ext rQ2 k)
      \/ (exists k, (k < NQ2)%nat
                    /\ grid_xsec ext i rQ2 k - xsec_before ext i rQ2 k < 0
                    /\ In Q2 (back_points ext kNQ2b (grid_Q2 ext rQ2 k)
                                (dlogQ2 ext rQ2 / 3))
                    /\ min rQ2 <= Q2)).
Proof.
  intro Hin.
  assert (Hall : Forall
                   (fun e =>
                      snd e = XSec ext (SetQ2 (fst e) false i) kPSWQ2fE
                      /\ ((exists k, (k < NQ2)%nat /\ fst e = grid_Q2 ext rQ2 k)
                          \/ (exists k, (k < NQ2)%nat
                                /\ grid_xsec ext i rQ2 k - xsec_before ext i rQ2 k < 0
                                /\ In (fst e)
                                      (back_points ext kNQ2b (grid_Q2 ext rQ2 k)
                                         (dlogQ2 ext rQ2 / 3))
                                /\ min rQ2 <= fst e)))
                   (scan_log (scan_grid ext i rQ2))).
  { unfold scan_grid.
    apply (scan_from_entries ext i rQ2 _ NQ2 0%nat (mkScan i 0 [])).
    - intros k Hk. split; [reflexivity|]. left. exists k. split; [lia|reflexivity].
    - intros k q Hk Hdrop Hback Hq. split; [reflexivity|]. right. exists k.
      split; [lia|]. split; [|split; [exact Hback|exact Hq]].
      apply Qle_bool_false in Hdrop. exact Hdrop.
    - intro q. reflexivity.
    - constructor. }
  rewrite Forall_forall in Hall. exact (Hall (Q2, xsec) Hin).
Qed.

Lemma scan_evaluation_points_witness :
  let ext := Toy.world (mkRange1D 1 2) (fun _ => mkRange1D 1 15) Toy.peak 3 None in
  let rQ2 := mkRange1D 1 15 in
  let Q2 := TMath_Exp ext (TMath_Log ext (grid_Q2 ext rQ2 3) - dlogQ2 ext rQ2 / 3) in
  let xsec := xsec_at ext Toy.interaction0 Q2 in
  In (Q2, xsec) (scan_log (scan_grid ext Toy.interaction0 rQ2))
  /\ (forall k, (k < NQ2)%nat -> Q2 <> grid_Q2 ext rQ2 k)
  /\ xsec = XSec ext (SetQ2 Q2 false Toy.interaction0) kPSWQ2fE
  /\ (exists k, (k < NQ2)%nat
                /\ grid_xsec ext Toy.interaction0 rQ2 k
                   - xsec_before ext Toy.interaction0 rQ2 k < 0
                /\ In Q2 (back_points ext kNQ2b (grid_Q2 ext rQ2 k)
                            (dlogQ2 ext rQ2 / 3))
                /\ min rQ2 <= Q2).
Proof.
  cbv zeta.
  assert (Hin : In (TMath_Exp
                      (Toy.world (mkRange1D 1 2) (fun _ => mkRange1D 1 15)
                         Toy.peak 3 None)
                      (TMath_Log
                         (Toy.world (mkRange1D 1 2) (fun _ => mkRange1D 1 15)
                            Toy.peak 3 None)
                         (grid_Q2
                            (Toy.world (mkRange1D 1 2) (fun _ => mkRange1D 1 15)
                               Toy.peak 3 None) (mkRange1D 1 15) 3)
                       - dlogQ2
                           (Toy.world (mkRange1D 1 2) (fun _ => mkRange1D 1 15)
                              Toy.peak 3 None) (mkRange1D 1 15) / 3),
                    xsec_at
                      (Toy.world (mkRange1D 1 2) (fun _ => mkRange1D 1 15)
                         Toy.peak 3 None) Toy.interaction0
                      (TMath_Exp
                         (Toy.world (mkRange1D 1 2) (fun _ => mkRange1D 1 15)
                            Toy.peak 3 None)
                         (TMath_Log
                            (Toy.world (mkRange1D 1 2) (fun _ => mkRange1D 1 15)
                               Toy.peak 3 None)
                            (grid_Q2
                               (Toy.world (mkRange1D 1 2) (fun _ => mkRange1D 1 15)
                                  Toy.peak 3 None) (mkRange1D 1 15) 3)
                          - dlogQ2
                              (Toy.world (mkRange1D 1 2) (fun _ => mkRange1D 1 15)
                                 Toy.peak 3 None) (mkRange1D 1 15) / 3)))
                   (scan_log
                      (scan_grid
                         (Toy.world (mkRange1D 1 2) (fun _ => mkRange1D 1 15)
                            Toy.peak 3 None) Toy.interaction0 (mkRange1D 1 15)))).
  { vm_compute. right. right. right. right. left. reflexivity. }
  assert (Hnot : forall k, (k < NQ2)%nat ->
            TMath_Exp
              (Toy.world (mkRange1D 1 2) (fun _ => mkRange1D 1 15)
                 Toy.peak 3 None)
              (TMath_Log
                 (Toy.world (mkRange1D 1 2) (fun _ => mkRange1D 1 15)
                    Toy.peak 3 None)
                 (grid_Q2
                    (Toy.world (mkRange1D 1 2) (fun _ => mkRange1D 1 15)
                       Toy.peak 3 None) (mkRange1D 1 15) 3)
               - dlogQ2
                   (Toy.world (mkRange1D 1 2) (fun _ => mkRange1D 1 15)
                      Toy.peak 3 None) (mkRange1D 1 15) / 3)
            <> grid_Q2
                 (Toy.world (mkRange1D 1 2) (fun _ => mkRange1D 1 15)
                    Toy.peak 3 None) (mkRange1D 1 15) k).
  { intros k Hk. unfold NQ2 in Hk.
    do 15 (destruct k as [|k];
           [intro H; vm_compute in H; discriminate H|]).
    lia. }
  split; [exact Hin|]. split; [exact Hnot|].
  destruct (scan_evaluation_points
              (Toy.world (mkRange1D 1 2) (fun _ => mkRange1D 1 15) Toy.peak 3 None)
              Toy.interaction0 (mkRange1D 1 15) _ _ Hin)
    as [Hx [[k [Hk Hq]]|Hback]].
  - exfalso. exact (Hnot k Hk Hq).
  - split; [exact Hx|exact Hback].
Defined.

(** ** The assertion on the W range *)

Lemma rejection_loop_never_asserts
    {RndState : Type} (ext : Externals RndState) (g : RESKinematicsGenerator)
    (Wmin Wmax dW xsec_max : Q) (fuel : nat) (st0 st : LoopState) :
  rejection_loop ext g fuel Wmin Wmax dW xsec_max st0 <> Some (AssertFailed st).
Proof.
  intro Hrun.
  refine (rejection_loop_rule ext g Wmin Wmax dW xsec_max
            (fun _ => True)
            (fun o => forall st', o <> AssertFailed st')
            _ fuel st0 (AssertFailed st) I Hrun st eq_refl).
  intros s _.
  destruct (iteration_cases ext g Wmin Wmax dW xsec_max s)
    as [[_ ->]|[_ [[st' [-> _]]|[[st' ->]|[st' ->]]]]];
    try exact I; intros st'' E; discriminate E.
Qed.

(** X17.  The call stops on its assertion exactly when the W range after cuts
    has a negative lower end or is not a proper interval
    ([W.min >= W.max]); it then stops before anything else is done: no
    flag is set, no random number is drawn, and the only change to the
    event is the trust bit set on entry. *)
Theorem ProcessEventRecord_asserts_iff
    {RndState : Type} (ext : Externals RndState) (g : RESKinematicsGenerator)
    (fuel : nat) (event : GHepRecord) (r : RndState) :
  let entry := SetInteraction (SetBit_SkipProcessChk true (GetInteraction event)) event in
  let W := WRange ext g (GetInteraction entry) in
  ((exists st, ProcessEventRecord ext g fuel event r = Some (AssertFailed st))
   <-> (min W < 0 \/ max W <= min W))
  /\ (forall st,
        ProcessEventRecord ext g fuel event r = Some (AssertFailed st) ->
        st = mkLoop 0 entry (fEnvelope g) r).
Proof.
  cbv zeta. cbn [GetInteraction SetInteraction].
  set (W := WRange ext g (SetBit_SkipProcessChk true (GetInteraction event))).
  assert (Hspec : W_assertion W = false <-> (min W < 0 \/ max W <= min W)).
  { unfold W_assertion. rewrite andb_false_iff.
    split; intros [H|H]; [left|right|left|right].
    - apply Qlt_bool_iff. unfold Qlt_bool. now rewrite H.
    - now apply Qlt_bool_false_iff.
    - apply Qlt_bool_iff in H. unfold Qlt_bool in H. now apply negb_true_iff in H.
    - now apply Qlt_bool_false_iff. }
  assert (Hrun : forall st,
             ProcessEventRecord ext g fuel event r = Some (AssertFailed st) ->
             W_assertion W = false
             /\ st = mkLoop 0
                       (SetInteraction (SetBit_SkipProcessChk true (GetInteraction event)) event)
                       (fEnvelope g) r).
  { intros st. unfold ProcessEventRecord. fold W.
    destruct (W_assertion W); cbn [negb].
    - destruct (no_phase_space W); [discriminate|].
      destruct (if fGenerateUniformly g then _ else _) as [v e|x e]; [|discriminate].
      intro H. exfalso. exact (rejection_loop_never_asserts _ _ _ _ _ _ _ _ _ H).
    - intro H. injection H as <-. split; reflexivity. }
  split.
  - split.
    + intros [st H]. apply Hspec. exact (proj1 (Hrun st H)).
    + intro H. apply Hspec in H. unfold ProcessEventRecord. fold W. rewrite H.
      cbn [negb]. eauto.
  - intros st H. exact (proj2 (Hrun st H)).
Qed.

Lemma ProcessEventRecord_asserts_witness :
  let ext := Toy.world (mkRange1D (-1) 2) (fun _ => mkRange1D 0.1 2) (fun _ => 1) 3 None in
  let g := Toy.generator [] true in
  exists st, ProcessEventRecord ext g 1 Toy.event0 [0.5; 0.5] = Some (AssertFailed st).
Proof.
  cbv zeta.
  apply (ProcessEventRecord_asserts_iff
           (Toy.world (mkRange1D (-1) 2) (fun _ => mkRange1D 0.1 2) (fun _ => 1) 3 None)
           (Toy.generator [] true) 1 Toy.event0 [0.5; 0.5]).
  left. reflexivity.
Defined.
